(** * Profile store of the Buteo synchronisation framework

    A shallow embedding of [libsyncprofile/ProfileManager.cpp]: the layered
    path resolver, the backup-aware loader, the save / remove / rename
    mutators, the sub-profile expander and the search predicates, together
    with theorems about them.

    The file system is a finite map from path strings to file contents.
    Paths are built by string concatenation exactly as the C++ code builds
    them.  The XML codec (Qt's [QDomDocument] and the profile factory) is a
    parameter of the development. *)

From stdpp Require Import gmap strings list fin_maps fin_sets.
From Stdlib Require Import Lia Ascii.

Module Buteo.

(** ** Constants of [ProfileManager.cpp] *)

Definition FORMAT_EXT : string := ".xml".
Definition BACKUP_EXT : string := ".bak".
Definition LOG_EXT : string := ".log".
Definition LOG_DIRECTORY : string := "logs".

(** [QDir::separator()] on the target platform. *)
Definition separator : string := "/".

(** Modelled from the spec: the constants of [ProfileEngineDefs.h] and
    [Profile.h], which are not part of the sources at hand.  The spec gives
    the canonical type [sync], the reserved key [protected] and the literal
    boolean strings. *)
Definition TYPE_SYNC : string := "sync".
Definition KEY_PROTECTED : string := "protected".
Definition KEY_HIDDEN : string := "hidden".
Definition BOOLEAN_TRUE : string := "true".
Definition BOOLEAN_FALSE : string := "false".

(** [QString::isEmpty]: a null and an empty [QString] are both empty, and
    compare equal with [==]; a [QString] argument is therefore a [string]. *)
Definition isEmpty (s : string) : bool := String.eqb s "".

(** ** Data model *)

(** Modelled from the spec: a profile-declared setting (type, default,
    options). *)
Record ProfileField := mkField {
  fieldType : string;
  fieldDefault : string;
  fieldOptions : list string
}.

(** Modelled from the spec: the class [Profile] ([Profile.h] is not part of
    the sources at hand).  A profile has a name, a type, a map of keys (an
    absent key is distinct from a key with an empty value), a map of fields,
    an ordered sequence of child profiles of the same shape, and the
    [loaded] flag. *)
#[warnings="-register-all"]
Inductive Profile := mkProfile {
  name : string;
  type : string;
  iKeys : gmap string string;
  iFields : gmap string ProfileField;
  iSubProfiles : list Profile;
  iLoaded : bool
}.

(** One entry of a sync log; only its position in the log matters here. *)
Record SyncResults := mkResults {
  resultTime : nat;
  majorCode : nat
}.

(** Modelled from the spec: a sync log is addressed by profile name and
    holds the results in append order. *)
Record SyncLog := mkSyncLog {
  profileName : string;
  results : list SyncResults
}.

(** [new SyncLog(aName)]: an empty log carrying only the profile name. *)
Definition newSyncLog (aName : string) : SyncLog := mkSyncLog aName [].

(** Modelled from the spec: [SyncProfile] is a [Profile] with an optional
    log attached.  (Schedule and sync type play no role below.) *)
Record SyncProfile := mkSyncProfile {
  base : Profile;
  log : option SyncLog
}.

(** [ProfileManager::SearchCriteria]. *)
Inductive MatchType := EQUAL | NOT_EQUAL | EXISTS | NOT_EXISTS.

Record SearchCriteria := mkCriteria {
  iType : MatchType;
  iSubProfileName : string;
  iSubProfileType : string;
  iKey : string;
  iValue : string
}.

Global Instance MatchType_eq_dec : EqDecision MatchType.
Proof. solve_decision. Defined.

(** Induction over profile trees, with the hypothesis for every child. *)
Section profile_induction.
Variable P : Profile → Prop.
Hypothesis step : ∀ n t k f subs l,
  Forall P subs → P (mkProfile n t k f subs l).

Fixpoint Profile_tree_ind (p : Profile) : P p :=
  match p with
  | mkProfile n t k f subs l =>
      step n t k f subs l
        ((fix go (cs : list Profile) : Forall P cs :=
            match cs with
            | [] => Forall_nil_2 P
            | c :: cs' => Forall_cons_2 P c cs' (Profile_tree_ind c) (go cs')
            end) subs)
  end.
End profile_induction.

(** ** Accessors of [Profile] (modelled from the spec) *)

(** The identity [(name, type)] under which a sub-profile is referenced. *)
Definition profileId (p : Profile) : string * string := (name p, type p).

Definition sameId (aName aType : string) (p : Profile) : bool :=
  String.eqb (name p) aName && String.eqb (type p) aType.

(** Modelled from the spec: [Profile::key], null ([None]) if absent. *)
Definition key (p : Profile) (aName : string) : option string :=
  iKeys p !! aName.

(** Modelled from the spec: the flag derived from the reserved key
    [protected], whose true value is the literal string [true]. *)
Definition isProtected (p : Profile) : bool :=
  bool_decide (key p KEY_PROTECTED = Some BOOLEAN_TRUE).

(** Modelled from the spec: the flag derived from the reserved key
    [hidden]. *)
Definition isHidden (p : Profile) : bool :=
  bool_decide (key p KEY_HIDDEN = Some BOOLEAN_TRUE).

(** Modelled from the spec: [Profile::isLoaded] and [Profile::setLoaded]
    read and write the [loaded] flag of the profile. *)
Definition isLoaded (p : Profile) : bool := iLoaded p.

Definition setLoaded (b : bool) (p : Profile) : Profile :=
  mkProfile (name p) (type p) (iKeys p) (iFields p) (iSubProfiles p) b.

Definition setSubProfiles (subs : list Profile) (p : Profile) : Profile :=
  mkProfile (name p) (type p) (iKeys p) (iFields p) subs (iLoaded p).

(** Modelled from the spec: [Profile::allSubProfiles], every sub-profile
    inside the profile, children before their own children's siblings
    (pre-order).  Scenario S4 of the spec needs the nested entries: the
    expander loads [st], which is a child of [svc]. *)
Fixpoint allSubProfiles (p : Profile) : list Profile :=
  match p with
  | mkProfile _ _ _ _ subs _ =>
      flat_map (λ c, c :: allSubProfiles c) subs
  end.

(** Modelled from the spec: [Profile::subProfile(name, type)], the first
    sub-profile with that identity, or null. *)
Definition subProfile (p : Profile) (aName aType : string) : option Profile :=
  find (sameId aName aType) (allSubProfiles p).

(** Modelled from the spec: [Profile::subProfileNames(type)], the names of
    the sub-profiles of that type. *)
Definition subProfileNames (p : Profile) (aType : string) : list string :=
  name <$> filter (λ c, type c = aType) (allSubProfiles p).

(** ** Pointers into a profile tree

    The expander keeps [Profile*] pointers into the tree while it mutates
    the tree.  A pointer is the list of child positions leading from the
    root to the node; [merge] only appends children, so a position never
    changes its meaning. *)

Abbreviation Path := (list nat) (only parsing).

Fixpoint nodeAt (p : Profile) (π : Path) : option Profile :=
  match π with
  | [] => Some p
  | i :: π' =>
      match iSubProfiles p !! i with
      | Some c => nodeAt c π'
      | None => None
      end
  end.

(** In-place update of the node a pointer refers to. *)
Fixpoint updateAt (π : Path) (f : Profile → Profile) (p : Profile) : Profile :=
  match π with
  | [] => f p
  | i :: π' => setSubProfiles (alter (updateAt π' f) i (iSubProfiles p)) p
  end.

Section paths_of_children.
Variable paths_of : Profile → list Path.

Fixpoint subPathsFrom (i : nat) (cs : list Profile) : list Path :=
  match cs with
  | [] => []
  | c :: cs' => ([i] :: map (cons i) (paths_of c)) ++ subPathsFrom (S i) cs'
  end.
End paths_of_children.

(** The pointers that [allSubProfiles] returns, in the same order. *)
Fixpoint allSubPaths (p : Profile) : list Path :=
  match p with
  | mkProfile _ _ _ _ subs _ => subPathsFrom allSubPaths 0 subs
  end.

Section locate_in_children.
Variable aName aType : string.
Variable locate_in : Profile → option Path.

Fixpoint locateFrom (i : nat) (cs : list Profile) : option Path :=
  match cs with
  | [] => None
  | c :: cs' =>
      if sameId aName aType c then Some [i]
      else match locate_in c with
           | Some π => Some (i :: π)
           | None => locateFrom (S i) cs'
           end
  end.
End locate_in_children.

(** Modelled from the spec: the search that [Profile::merge] starts with,
    "locates the sub-profile inside root whose (name, type) equals
    external's".  The result is the pointer to the first such sub-profile
    in the order of [allSubProfiles]. *)
Fixpoint locate (aName aType : string) (p : Profile) : option Path :=
  match p with
  | mkProfile _ _ _ _ subs _ => locateFrom aName aType (locate aName aType) 0 subs
  end.

(** ** [Profile::merge] *)

(** Modelled from the spec: the overlay of keys and fields in
    [Profile::merge], additive with overwrite: the external value replaces
    an existing value for the same key or field. *)
Definition overlay (ext : Profile) (target : Profile) : Profile :=
  mkProfile (name target) (type target)
            (iKeys ext ∪ iKeys target) (iFields ext ∪ iFields target)
            (iSubProfiles target) (iLoaded target).

Definition appendSubProfile (c : Profile) (target : Profile) : Profile :=
  setSubProfiles (iSubProfiles target ++ [c]) target.

(** Modelled from the spec: "present in root", a sub-profile with this
    identity is among the sub-profiles inside the root. *)
Definition isPresent (root : Profile) (c : Profile) : bool :=
  existsb (sameId (name c) (type c)) (allSubProfiles root).

(** Modelled from the spec: one nested sub-profile of the external
    profile in [Profile::merge], appended to the target node unless a
    sub-profile of that identity is already present in the root. *)
Definition mergeSubProfile (π : Path) (root : Profile) (c : Profile) : Profile :=
  if isPresent root c then root else updateAt π (appendSubProfile c) root.

(** Modelled from the spec: [Profile::merge].  "Locates the sub-profile
    inside root whose (name, type) equals external's, and overlays
    external's keys, fields, and nested subProfiles onto that node.  Overlay
    is additive with overwrite: the external value replaces any existing
    value for the same key or field; sub-profiles referenced in external but
    not yet present in root are appended."  The spec does not say what
    happens when no such sub-profile is found; the root is then left as it
    is. *)
Definition merge (root : Profile) (ext : Profile) : Profile :=
  match locate (name ext) (type ext) root with
  | Some π =>
      fold_left (mergeSubProfile π) (iSubProfiles ext)
                (updateAt π (overlay ext) root)
  | None => root
  end.

(** ** The file system

    [files] maps a path to the contents of the regular file at that path.
    Directories are not modelled; [locked] holds the paths that cannot be
    created, opened for writing, removed or renamed (a missing or read-only
    directory, a read-only file), and [unreadable] the paths that cannot be
    opened for reading.  Both are fixed: no operation changes them. *)

Record FileSystem := mkFS {
  files : gmap string string;
  locked : gset string;
  unreadable : gset string
}.

Definition setFiles (m : gmap string string) (fs : FileSystem) : FileSystem :=
  mkFS m (locked fs) (unreadable fs).

Definition isLocked (fs : FileSystem) (path : string) : bool :=
  bool_decide (path ∈ locked fs).

Definition isUnreadable (fs : FileSystem) (path : string) : bool :=
  bool_decide (path ∈ unreadable fs).

(** [QFile::exists(path)]. *)
Definition QFile_exists (fs : FileSystem) (path : string) : bool :=
  match files fs !! path with
  | Some _ => true
  | None => false
  end.

(** [QFile::remove(path)]: true iff the file was removed. *)
Definition QFile_remove (fs : FileSystem) (path : string) : FileSystem * bool :=
  if QFile_exists fs path && negb (isLocked fs path)
  then (setFiles (delete path (files fs)) fs, true)
  else (fs, false).

(** [QFile::copy(src, dst)]: never overwrites an existing destination. *)
Definition QFile_copy (fs : FileSystem) (src dst : string) : FileSystem * bool :=
  match files fs !! src with
  | Some content =>
      if isUnreadable fs src || QFile_exists fs dst || isLocked fs dst
      then (fs, false)
      else (setFiles (<[dst := content]> (files fs)) fs, true)
  | None => (fs, false)
  end.

(** [QFile::rename(src, dst)]: fails if the destination exists. *)
Definition QFile_rename (fs : FileSystem) (src dst : string) : FileSystem * bool :=
  match files fs !! src with
  | Some content =>
      if QFile_exists fs dst || isLocked fs src || isLocked fs dst
      then (fs, false)
      else (setFiles (<[dst := content]> (delete src (files fs))) fs, true)
  | None => (fs, false)
  end.

(** [QFile::open(WriteOnly | Truncate)], the write of the text and
    [close]. *)
Definition QFile_write (fs : FileSystem) (path content : string)
  : FileSystem * bool :=
  if isLocked fs path then (fs, false)
  else (setFiles (<[path := content]> (files fs)) fs, true).

(** ** Directory listing *)

Fixpoint stripPrefix (pre s : string) : option string :=
  match pre, s with
  | EmptyString, _ => Some s
  | String a pre', String b s' =>
      if Ascii.eqb a b then stripPrefix pre' s' else None
  | String _ _, EmptyString => None
  end.

(** Qt matches a name filter without regard to case unless
    [QDir::CaseSensitive] is given; for the characters of [*.xml] that is
    the comparison of the lower-case ASCII letters. *)
Definition toLower (c : ascii) : ascii :=
  let n := nat_of_ascii c in
  if (65 <=? n) && (n <=? 90) then ascii_of_nat (n + 32) else c.

Definition eqbNoCase (a b : ascii) : bool :=
  Ascii.eqb (toLower a) (toLower b).

Fixpoint sameNoCase (a b : string) : bool :=
  match a, b with
  | EmptyString, EmptyString => true
  | String x a', String y b' => eqbNoCase x y && sameNoCase a' b'
  | _, _ => false
  end.

(** The name filter [*<suf>]: the name ends with [suf], in any case. *)
Fixpoint endsWithNoCase (suf s : string) : bool :=
  sameNoCase suf s
  || match s with
     | EmptyString => false
     | String _ s' => endsWithNoCase suf s'
     end.

Fixpoint hasDot (s : string) : bool :=
  match s with
  | EmptyString => false
  | String c s' => Ascii.eqb c "."%char || hasDot s'
  end.

(** [QFileInfo::completeBaseName]: the file name up to, and without, its
    last dot. *)
Fixpoint completeBaseName (s : string) : string :=
  match s with
  | EmptyString => EmptyString
  | String c s' =>
      if Ascii.eqb c "."%char && negb (hasDot s') then EmptyString
      else String c (completeBaseName s')
  end.

Fixpoint hasSeparator (s : string) : bool :=
  match s with
  | EmptyString => false
  | String c s' => Ascii.eqb c "/"%char || hasSeparator s'
  end.

Definition isDotFile (s : string) : bool :=
  match s with
  | String c _ => Ascii.eqb c "."%char
  | EmptyString => false
  end.

(** The [completeBaseName] of a path, if the path is a visible regular file
    directly inside [dir] whose name matches the filter [*.xml].  The call
    passes [QDir::Files | QDir::NoSymLinks] and not [QDir::CaseSensitive]:
    [FOO.XML] matches too. *)
Definition profileBaseName (dir path : string) : option string :=
  match stripPrefix (dir +:+ separator) path with
  | Some fileName =>
      if hasSeparator fileName || isDotFile fileName then None
      else if endsWithNoCase FORMAT_EXT fileName
           then Some (completeBaseName fileName)
           else None
  | None => None
  end.

(** [QDir(dir).entryInfoList("*.xml", Files | NoSymLinks)] followed by
    [completeBaseName].  The entries come in the order of the map, not in
    Qt's name order; nothing below depends on the order. *)
Definition entryBaseNames (fs : FileSystem) (dir : string) : list string :=
  omap (λ kv, profileBaseName dir kv.1) (map_to_list (files fs)).

(** The constructor of [ProfileManagerPrivate] chops one trailing
    separator. *)
Fixpoint chopSeparator (s : string) : string :=
  match s with
  | EmptyString => EmptyString
  | String c EmptyString => if Ascii.eqb c "/"%char then EmptyString else s
  | String c s' => String c (chopSeparator s')
  end.

(** ** Further constants and mutators of [Profile] and [SyncLog] *)

(** Modelled from the spec: more constants of [ProfileEngineDefs.h] and
    [Profile.h]: the profile types [service] and [storage], the reserved
    keys [enabled] and [destinationType], and the value [online]. *)
Definition TYPE_SERVICE : string := "service".
Definition TYPE_STORAGE : string := "storage".
Definition KEY_ENABLED : string := "enabled".
Definition KEY_DESTINATION_TYPE : string := "destinationType".
Definition VALUE_ONLINE : string := "online".

(** Modelled from the spec: [SyncLog::addResults], "appends results to its
    sequence". *)
Definition addResults (aResults : SyncResults) (aLog : SyncLog) : SyncLog :=
  mkSyncLog (profileName aLog) (results aLog ++ [aResults]).

(** The default constructor of [SearchCriteria]: type EQUAL, all strings
    empty. *)
Definition defaultCriteria : SearchCriteria := mkCriteria EQUAL "" "" "" "".

(** ** Fixtures

    A table codec and the scenarios of the specification, to run the
    functions below on concrete file systems.  A document is the profile
    it describes; a text parses iff it is the text of a known document. *)

Definition leafProfile (aName aType : string) (k : gmap string string) : Profile :=
  mkProfile aName aType k ∅ [] false.

Definition fooSystem : Profile := leafProfile "foo" "sync" {["owner" := "system"]}.
Definition fooUser : Profile := leafProfile "foo" "sync" {["owner" := "user"]}.
Definition keep : Profile := leafProfile "keep" "sync" {["protected" := "true"]}.

(** Scenario S4: [parent] refers to [svc], whose file refers to [st]. *)
Definition parent : Profile :=
  mkProfile "parent" "sync" ∅ ∅ [leafProfile "svc" "service" ∅] false.
Definition svc : Profile :=
  mkProfile "svc" "service" {["endpoint" := "http://h"]} ∅
            [leafProfile "st" "storage" ∅] false.
Definition st : Profile := leafProfile "st" "storage" {["path" := "/data"]}.

(** A reference cycle: [cyc] refers to [a], the file of [a] refers to [b],
    and the file of [b] refers to [a] again. *)
Definition cyc : Profile :=
  mkProfile "cyc" "sync" ∅ ∅ [leafProfile "a" "service" ∅] false.
Definition cycLoaded : Profile :=
  mkProfile "cyc" "sync" ∅ ∅ [setLoaded true (leafProfile "a" "service" ∅)] false.
Definition cycA : Profile :=
  mkProfile "a" "service" ∅ ∅ [leafProfile "b" "storage" ∅] false.
Definition cycB : Profile :=
  mkProfile "b" "storage" ∅ ∅ [leafProfile "a" "service" ∅] false.

Definition textOf (p : Profile) : string :=
  "<" +:+ name p +:+
  match key p "owner" with
  | Some v => " owner=" +:+ v
  | None => ""
  end +:+ ">".

Definition knownDocs : list Profile :=
  [fooSystem; fooUser; keep; parent; svc; st; cyc; cycA; cycB].

Definition docOf (text : string) : option Profile :=
  find (λ p, String.eqb (textOf p) text) knownDocs.

Definition logOf (doc : Profile) : SyncLog := mkSyncLog (name doc) [mkResults 1 0].

Definition primaryRoot : string := "/home/.sync/profiles/".
Definition secondaryRoot : string := "/etc/sync/profiles".

(** Scenario S1 with an overlay: [foo] in both roots. *)
Definition fsLayered : FileSystem :=
  mkFS (list_to_map
          [("/home/.sync/profiles/sync/foo.xml", "<foo owner=user>");
           ("/etc/sync/profiles/sync/foo.xml", "<foo owner=system>")]) ∅ ∅.

(** [foo] under the primary root only, never synchronised: no log file. *)
Definition fsFoo : FileSystem :=
  mkFS {["/home/.sync/profiles/sync/foo.xml" := "<foo owner=system>"]} ∅ ∅.

(** The same, with a profile file that cannot be opened for writing. *)
Definition fsFooReadOnly : FileSystem :=
  mkFS {["/home/.sync/profiles/sync/foo.xml" := "<foo owner=system>"]}
       {["/home/.sync/profiles/sync/foo.xml"]} ∅.

(** Scenario S3: a save of [foo] was interrupted; the profile file is
    truncated and the backup holds the old contents. *)
Definition fsCrashed : FileSystem :=
  mkFS (list_to_map
          [("/home/.sync/profiles/sync/foo.xml", "");
           ("/home/.sync/profiles/sync/foo.xml.bak", "<foo owner=system>")]) ∅ ∅.

(** Scenario S1: [foo] among the system defaults only. *)
Definition fsDefaults : FileSystem :=
  mkFS {["/etc/sync/profiles/sync/foo.xml" := "<foo owner=system>"]} ∅ ∅.

(** Scenario S6. *)
Definition fsKeep : FileSystem :=
  mkFS {["/home/.sync/profiles/sync/keep.xml" := "<keep>"]} ∅ ∅.

(** Scenario S4, with the storage profile among the system defaults. *)
Definition fsNested : FileSystem :=
  mkFS (list_to_map
          [("/home/.sync/profiles/sync/parent.xml", "<parent>");
           ("/home/.sync/profiles/service/svc.xml", "<svc>");
           ("/etc/sync/profiles/storage/st.xml", "<st>")]) ∅ ∅.

Definition fsCycle : FileSystem :=
  mkFS (list_to_map
          [("/home/.sync/profiles/sync/cyc.xml", "<cyc>");
           ("/home/.sync/profiles/service/a.xml", "<a>");
           ("/home/.sync/profiles/storage/b.xml", "<b>")]) ∅ ∅.

(** [foo] after a synchronisation: the profile file and its log file. *)
Definition fsSynced : FileSystem :=
  mkFS (list_to_map
          [("/home/.sync/profiles/sync/foo.xml", "<foo owner=system>");
           ("/home/.sync/profiles/sync/logs/foo.log.xml", "<log foo *>")]) ∅ ∅.

(** A backup that does not parse, beside an intact profile file. *)
Definition fsGarbageBackup : FileSystem :=
  mkFS (list_to_map
          [("/home/.sync/profiles/sync/foo.xml", "<foo owner=system>");
           ("/home/.sync/profiles/sync/foo.xml.bak", "<fo")]) ∅ ∅.

(** A profile for an online service with a calendar storage, and a table
    codec that knows its document only. *)
Definition online : Profile :=
  mkProfile "online" "sync" ∅ ∅
    [leafProfile "web" "service" {["destinationType" := "online"]};
     leafProfile "hcalendar" "storage" {["enabled" := "true"]}] false.

Definition onlineDocOf (text : string) : option Profile :=
  find (λ p, String.eqb (textOf p) text) [online].

Definition fsOnline : FileSystem :=
  mkFS {["/home/.sync/profiles/sync/online.xml" := "<online>"]} ∅ ∅.

(** Two storages, of which only the second has the key [path]. *)
Definition twoStorages : Profile :=
  mkProfile "two" "sync" ∅ ∅
    [leafProfile "s1" "storage" ∅;
     leafProfile "s2" "storage" {["path" := "/data"]}] false.

(** A table codec for logs: a document is the log it describes, written
    with one star per result. *)
Definition logTextOf (l : SyncLog) : string :=
  "<log " +:+ profileName l +:+ " " +:+
  String.concat "" ((λ _, "*") <$> results l) +:+ ">".

Definition knownLogs : list SyncLog :=
  [mkSyncLog "foo" [];
   mkSyncLog "foo" [mkResults 1 0];
   mkSyncLog "foo" [mkResults 1 0; mkResults 2 0]].

Definition logDocOf (text : string) : option SyncLog :=
  find (λ l, String.eqb (logTextOf l) text) knownLogs.

(** Extensions in upper case: two files of the base name [a] under the
    primary root, and [FOO.XML] among the system defaults. *)
Definition fsAnyCase : FileSystem :=
  mkFS (list_to_map
          [("/home/.sync/profiles/sync/a.xml", "<a>");
           ("/home/.sync/profiles/sync/a.XML", "<a>");
           ("/etc/sync/profiles/sync/FOO.XML", "<foo owner=system>")]) ∅ ∅.

(** ** [ProfileManager] and [ProfileManagerPrivate] *)

Section ProfileManager.

(** The XML codec: [QDomDocument::setContent] (the document element of
    the parsed text, if it parses), the constructors that [ProfileFactory]
    and [SyncLog] run on a document element, [Profile::toXml] (null if the
    profile cannot be converted) and [QDomDocument::toString]. *)
Variable QDomElement : Type.
Variable setContent : string → option QDomElement.
Variable createProfile : QDomElement → Profile.
Variable createSyncLog : QDomElement → SyncLog.
Variable toXml : Profile → option QDomElement.
Variable toString : QDomElement → string.

(** The arguments of the [ProfileManager] constructor. *)
Variable aPrimaryPath aSecondaryPath : string.

Definition iPrimaryPath : string := chopSeparator aPrimaryPath.
Definition iSecondaryPath : string := chopSeparator aSecondaryPath.

(** [<root>/<type>/<name>.xml] and [<primary>/<type>/logs/<name>.log.xml]. *)
Definition profileFilePath (root aType aName : string) : string :=
  root +:+ separator +:+ aType +:+ separator +:+ aName +:+ FORMAT_EXT.

Definition logFilePath (aType aName : string) : string :=
  iPrimaryPath +:+ separator +:+ aType +:+ separator +:+
  LOG_DIRECTORY +:+ separator +:+ aName +:+ LOG_EXT +:+ FORMAT_EXT.

(** [ProfileManagerPrivate::findProfileFile]. *)
Definition findProfileFile (fs : FileSystem) (aName aType : string) : string :=
  let fileName := aType +:+ separator +:+ aName +:+ FORMAT_EXT in
  let primaryPath := iPrimaryPath +:+ separator +:+ fileName in
  let secondaryPath := iSecondaryPath +:+ separator +:+ fileName in
  if QFile_exists fs primaryPath then primaryPath
  else if negb (QFile_exists fs secondaryPath) then primaryPath
  else secondaryPath.

(** [ProfileManagerPrivate::parseFile]: the document, if the file exists,
    opens for reading and parses. *)
Definition parseFile (fs : FileSystem) (aPath : string) : option QDomElement :=
  match files fs !! aPath with
  | Some content =>
      if isUnreadable fs aPath then None else setContent content
  | None => None
  end.

(** [ProfileManagerPrivate::restoreBackupIfFound]. *)
Definition restoreBackupIfFound (fs : FileSystem)
    (aProfilePath aBackupPath : string) : FileSystem :=
  if QFile_exists fs aBackupPath then
    match parseFile fs aBackupPath with
    | Some _ =>
        let fs1 := (QFile_remove fs aProfilePath).1 in
        (QFile_copy fs1 aBackupPath aProfilePath).1
    | None => (QFile_remove fs aBackupPath).1
    end
  else fs.

(** [ProfileManagerPrivate::createBackup]. *)
Definition createBackup (fs : FileSystem) (aProfilePath aBackupPath : string)
  : FileSystem * bool :=
  QFile_copy fs aProfilePath aBackupPath.

(** [ProfileManagerPrivate::load]. *)
Definition load (fs : FileSystem) (aName aType : string)
  : FileSystem * option Profile :=
  let profilePath := findProfileFile fs aName aType in
  let backupProfilePath := profilePath +:+ BACKUP_EXT in
  let fs1 := restoreBackupIfFound fs profilePath backupProfilePath in
  match parseFile fs1 profilePath with
  | Some doc =>
      let fs2 := if QFile_exists fs1 backupProfilePath
                 then (QFile_remove fs1 backupProfilePath).1
                 else fs1 in
      (fs2, Some (createProfile doc))
  | None => (fs1, None)
  end.

(** [ProfileManagerPrivate::loadLog]. *)
Definition loadLog (fs : FileSystem) (aProfileName : string) : option SyncLog :=
  let fileName := logFilePath TYPE_SYNC aProfileName in
  if negb (QFile_exists fs fileName) then None
  else if isUnreadable fs fileName then None
  else match files fs !! fileName with
       | Some content =>
           match setContent content with
           | Some doc => Some (createSyncLog doc)
           | None => None
           end
       | None => None
       end.

(** [ProfileManagerPrivate::matchKey]. *)
Definition matchKey (aProfile : Profile) (aCriteria : SearchCriteria) : bool :=
  if negb (isEmpty (iKey aCriteria)) then
    match key aProfile (iKey aCriteria) with
    | None =>
        if bool_decide (iType aCriteria = NOT_EXISTS)
           || bool_decide (iType aCriteria = NOT_EQUAL)
        then true else false
    | Some value =>
        match iType aCriteria with
        | EXISTS => true
        | NOT_EXISTS => false
        | EQUAL => String.eqb value (iValue aCriteria)
        | NOT_EQUAL => negb (String.eqb value (iValue aCriteria))
        end
    end
  else
    if bool_decide (iType aCriteria = NOT_EXISTS) then false else true.

(** The [foreach] over the sub-profile names in [matchProfile]: stops at
    the first sub-profile whose key test succeeds. *)
Fixpoint matchAnySubProfile (aProfile : Profile) (aCriteria : SearchCriteria)
    (subProfileNames : list string) : bool :=
  match subProfileNames with
  | [] => false
  | subProfileName :: rest =>
      match subProfile aProfile subProfileName (iSubProfileType aCriteria) with
      | Some testProfile =>
          if matchKey testProfile aCriteria then true
          else matchAnySubProfile aProfile aCriteria rest
      | None => matchAnySubProfile aProfile aCriteria rest
      end
  end.

(** [ProfileManagerPrivate::matchProfile]. *)
Definition matchProfile (aProfile : Profile) (aCriteria : SearchCriteria) : bool :=
  if negb (isEmpty (iSubProfileName aCriteria)) then
    match subProfile aProfile (iSubProfileName aCriteria)
                     (iSubProfileType aCriteria) with
    | Some testProfile => matchKey testProfile aCriteria
    | None => if bool_decide (iType aCriteria = NOT_EXISTS) then true else false
    end
  else if negb (isEmpty (iSubProfileType aCriteria)) then
    let names := subProfileNames aProfile (iSubProfileType aCriteria) in
    match names with
    | _ :: _ => matchAnySubProfile aProfile aCriteria names
    | [] => if bool_decide (iType aCriteria = NOT_EXISTS) then true else false
    end
  else matchKey aProfile aCriteria.

(** [ProfileManager::profile]. *)
Definition profile (fs : FileSystem) (aName aType : string)
  : FileSystem * option Profile :=
  load fs aName aType.

(** *** [ProfileManager::expand] *)

(** One step of the [foreach] inside the [while] loop: [sub] is a pointer
    taken from the list that [allSubProfiles] returned before the round.  A
    sub-profile that is already loaded is skipped.  (A pointer of that list
    is never dangling, see [fold_expandVisit_valid]; the last case is there
    for totality only.) *)
Definition expandVisit (st : FileSystem * Profile) (sub : Path)
  : FileSystem * Profile :=
  match nodeAt st.2 sub with
  | Some node =>
      if negb (isLoaded node) then
        let '(fs', loadedProfile) := profile st.1 (name node) (type node) in
        let merged := match loadedProfile with
                      | Some ext => merge st.2 ext
                      | None => st.2
                      end in
        (fs', updateAt sub (setLoaded true) merged)
      else st
  | None => st
  end.

(** The [while (subCount > prevSubCount)] loop.  [fuel] bounds the number
    of rounds; [expandLoop_terminates] below shows that [expandFuel] rounds
    always suffice, so that the bound is never hit. *)
Fixpoint expandLoop (fuel : nat) (fs : FileSystem) (aProfile : Profile)
    (subProfiles : list Path) (prevSubCount subCount : nat)
  : option (FileSystem * Profile) :=
  if prevSubCount <? subCount then
    match fuel with
    | 0 => None
    | S fuel' =>
        let st := fold_left expandVisit subProfiles (fs, aProfile) in
        let subProfiles' := allSubPaths st.2 in
        expandLoop fuel' st.1 st.2 subProfiles' subCount (length subProfiles')
    end
  else Some (fs, aProfile).

(** The identities of the sub-profiles inside a profile. *)
Definition subProfileIds (p : Profile) : gset (string * string) :=
  list_to_set (profileId <$> allSubProfiles p).

(** The identities that a file can contribute when it is loaded and
    merged. *)
Definition storedIds (content : string) : gset (string * string) :=
  match setContent content with
  | Some doc => subProfileIds (createProfile doc)
  | None => ∅
  end.

Definition storedIdsOf (fs : FileSystem) : gset (string * string) :=
  ⋃ (storedIds <$> (map_to_list (files fs)).*2).

(** Every identity that can occur inside the profile while it is expanded
    against this file system. *)
Definition reachableIds (fs : FileSystem) (aProfile : Profile)
  : gset (string * string) :=
  subProfileIds aProfile ∪ storedIdsOf fs.

Definition expandFuel (fs : FileSystem) (aProfile : Profile) : nat :=
  S (size (reachableIds fs aProfile)).

(** [ProfileManager::expand].  The loop is run with [expandFuel] rounds of
    fuel; it never runs out of them ([expand_unfold] below), so the last
    case is not taken. *)
Definition expand (fs : FileSystem) (aProfile : Profile)
  : FileSystem * Profile :=
  if isLoaded aProfile then (fs, aProfile)
  else
    let subProfiles := allSubPaths aProfile in
    match expandLoop (expandFuel fs aProfile) fs aProfile
                     subProfiles 0 (length subProfiles) with
    | Some st => (st.1, setLoaded true st.2)
    | None => (fs, setLoaded true aProfile)
    end.

(** Modelled from the spec: the [SyncProfile] that the factory builds for
    an element of type [sync].  The factory populates name, type, keys,
    fields and sub-profiles; no log is attached yet. *)
Definition asSyncProfile (p : Profile) : SyncProfile := mkSyncProfile p None.

(** [ProfileManager::syncProfile]. *)
Definition syncProfile (fs : FileSystem) (aName : string)
  : FileSystem * option SyncProfile :=
  let '(fs1, p) := profile fs aName TYPE_SYNC in
  match p with
  | Some p' =>
      if String.eqb (type p') TYPE_SYNC then
        let sp := asSyncProfile p' in
        let '(fs2, expanded) := expand fs1 (base sp) in
        let sp := mkSyncProfile expanded (log sp) in
        match log sp with
        | None =>
            let l := match loadLog fs2 aName with
                     | Some l => l
                     | None => newSyncLog aName
                     end in
            (fs2, Some (mkSyncProfile (base sp) (Some l)))
        | Some _ => (fs2, Some sp)
        end
      else (fs1, None)
  | None => (fs1, None)
  end.

(** [ProfileManager::profileNames]: the primary directory first, then the
    names of the secondary directory that are not yet in the list. *)
Definition profileNames (fs : FileSystem) (aType : string) : list string :=
  let names := entryBaseNames fs (iPrimaryPath +:+ separator +:+ aType) in
  fold_left
    (λ names profileName,
       if bool_decide (profileName ∈ names) then names
       else names ++ [profileName])
    (entryBaseNames fs (iSecondaryPath +:+ separator +:+ aType))
    names.

(** The [foreach] of [allSyncProfiles]. *)
Fixpoint syncProfilesOf (fs : FileSystem) (names : list string)
  : FileSystem * list SyncProfile :=
  match names with
  | [] => (fs, [])
  | n :: rest =>
      let '(fs1, p) := syncProfile fs n in
      let '(fs2, profiles) := syncProfilesOf fs1 rest in
      (fs2, match p with
            | Some sp => sp :: profiles
            | None => profiles
            end)
  end.

(** [ProfileManager::allSyncProfiles]. *)
Definition allSyncProfiles (fs : FileSystem) : FileSystem * list SyncProfile :=
  syncProfilesOf fs (profileNames fs TYPE_SYNC).

(** [ProfileManager::allVisibleSyncProfiles]. *)
Definition allVisibleSyncProfiles (fs : FileSystem)
  : FileSystem * list SyncProfile :=
  let '(fs', profiles) := allSyncProfiles fs in
  (fs', List.filter (λ p, negb (isHidden (base p))) profiles).

(** The inner [foreach] of [getSyncProfilesByData]: leaves at the first
    criterion that does not match. *)
Fixpoint matchesAll (aProfile : Profile) (aCriteria : list SearchCriteria)
  : bool :=
  match aCriteria with
  | [] => true
  | criteria :: rest =>
      if negb (matchProfile aProfile criteria) then false
      else matchesAll aProfile rest
  end.

(** The outer [foreach] of [getSyncProfilesByData]. *)
Fixpoint selectMatching (allProfiles : list SyncProfile)
    (aCriteria : list SearchCriteria) : list SyncProfile :=
  match allProfiles with
  | [] => []
  | p :: rest =>
      if matchesAll (base p) aCriteria
      then p :: selectMatching rest aCriteria
      else selectMatching rest aCriteria
  end.

(** [ProfileManager::getSyncProfilesByData(const QList<SearchCriteria>&)]. *)
Definition getSyncProfilesByData (fs : FileSystem)
    (aCriteria : list SearchCriteria) : FileSystem * list SyncProfile :=
  let '(fs', allProfiles) := allSyncProfiles fs in
  (fs', selectMatching allProfiles aCriteria).

(** *** [ProfileManager::save] *)

Definition constructProfileDocument (aProfile : Profile) : option QDomElement :=
  toXml aProfile.

Definition writeProfileFile (fs : FileSystem) (aProfilePath : string)
    (aDoc : QDomElement) : FileSystem * bool :=
  QFile_write fs aProfilePath (toString aDoc).

(** The first half of [save], up to the call of [writeProfileFile]: the
    backup of the existing profile file.  [findProfileFile] is called with
    the type first and the name second, as the source has it.  ([mkpath]
    has no effect on a file system without directories.) *)
Definition saveBackup (fs : FileSystem) (aProfile : Profile) : FileSystem :=
  let profilePath := profileFilePath iPrimaryPath (type aProfile) (name aProfile) in
  let oldProfilePath := findProfileFile fs (type aProfile) (name aProfile) in
  let backupPath := profilePath +:+ BACKUP_EXT in
  if QFile_exists fs oldProfilePath
  then (createBackup fs oldProfilePath backupPath).1
  else fs.

Definition save (fs : FileSystem) (aProfile : Profile) : FileSystem * bool :=
  match constructProfileDocument aProfile with
  | None => (fs, false)
  | Some doc =>
      let profilePath :=
        profileFilePath iPrimaryPath (type aProfile) (name aProfile) in
      let backupPath := profilePath +:+ BACKUP_EXT in
      let fs1 := saveBackup fs aProfile in
      let '(fs2, written) := writeProfileFile fs1 profilePath doc in
      if written then ((QFile_remove fs2 backupPath).1, true)
      else (fs2, false)
  end.

(** [ProfileManager::remove]. *)
Definition remove (fs : FileSystem) (aName aType : string) : FileSystem * bool :=
  let filePath := profileFilePath iPrimaryPath aType aName in
  let '(fs1, p) := load fs aName aType in
  match p with
  | Some p' =>
      if negb (isProtected p') then
        let '(fs2, success) := QFile_remove fs1 filePath in
        if success then QFile_remove fs2 (logFilePath aType aName)
        else (fs2, success)
      else (fs1, false)
  | None => (fs1, false)
  end.

(** [ProfileManager::rename]. *)
Definition rename (fs : FileSystem) (aName aNewName : string)
  : FileSystem * bool :=
  let source := profileFilePath iPrimaryPath TYPE_SYNC aName in
  let destination := profileFilePath iPrimaryPath TYPE_SYNC aNewName in
  let '(fs1, ret) := QFile_rename fs source destination in
  if ret then
    let sourceLog := logFilePath TYPE_SYNC aName in
    let destinationLog := logFilePath TYPE_SYNC aNewName in
    let '(fs2, ret) := QFile_rename fs1 sourceLog destinationLog in
    if negb ret then ((QFile_rename fs2 destination source).1, ret)
    else (fs2, ret)
  else (fs1, ret).

(** *** The other queries *)

(** The sub-profile that the four-string [getSyncProfilesByData] tests:
    the named sub-profile; without a name, the first sub-profile of the
    given type; without a type, the profile itself. *)
Definition selectTestProfile (profile : Profile)
    (aSubProfileName aSubProfileType : string) : option Profile :=
  if negb (isEmpty aSubProfileName) then
    subProfile profile aSubProfileName aSubProfileType
  else if negb (isEmpty aSubProfileType) then
    match subProfileNames profile aSubProfileType with
    | first :: _ => subProfile profile first aSubProfileType
    | [] => None
    end
  else Some profile.

(** The body of the [foreach] of the four-string [getSyncProfilesByData]:
    true iff the profile is appended to the result. *)
Definition matchesData (profile : Profile)
    (aSubProfileName aSubProfileType aKey aValue : string) : bool :=
  match selectTestProfile profile aSubProfileName aSubProfileType with
  | None => false
  | Some testProfile =>
      if negb (isEmpty aKey) then
        match key testProfile aKey with
        | None => false
        | Some value =>
            if negb (isEmpty aValue) && negb (String.eqb value aValue)
            then false else true
        end
      else true
  end.

Fixpoint selectByData (allProfiles : list SyncProfile)
    (aSubProfileName aSubProfileType aKey aValue : string) : list SyncProfile :=
  match allProfiles with
  | [] => []
  | p :: rest =>
      if matchesData (base p) aSubProfileName aSubProfileType aKey aValue
      then p :: selectByData rest aSubProfileName aSubProfileType aKey aValue
      else selectByData rest aSubProfileName aSubProfileType aKey aValue
  end.

(** [ProfileManager::getSyncProfilesByData(const QString&, const QString&,
    const QString&, const QString&)]. *)
Definition getSyncProfilesByDataFor (fs : FileSystem)
    (aSubProfileName aSubProfileType aKey aValue : string)
  : FileSystem * list SyncProfile :=
  let '(fs', allProfiles) := allSyncProfiles fs in
  (fs', selectByData allProfiles aSubProfileName aSubProfileType aKey aValue).

(** The criteria list that [getSyncProfilesByStorage] builds. *)
Definition profileEnabled : SearchCriteria :=
  mkCriteria NOT_EQUAL "" "" KEY_ENABLED BOOLEAN_FALSE.

Definition profileVisible : SearchCriteria :=
  mkCriteria NOT_EQUAL "" "" KEY_HIDDEN BOOLEAN_TRUE.

Definition onlineService : SearchCriteria :=
  mkCriteria EQUAL "" TYPE_SERVICE KEY_DESTINATION_TYPE VALUE_ONLINE.

Definition storageSupported (aStorageName : string)
    (aStorageMustBeEnabled : bool) : SearchCriteria :=
  if aStorageMustBeEnabled
  then mkCriteria EQUAL aStorageName TYPE_STORAGE KEY_ENABLED BOOLEAN_TRUE
  else mkCriteria EXISTS aStorageName TYPE_STORAGE "" "".

(** [ProfileManager::getSyncProfilesByStorage]. *)
Definition getSyncProfilesByStorage (fs : FileSystem) (aStorageName : string)
    (aStorageMustBeEnabled : bool) : FileSystem * list SyncProfile :=
  getSyncProfilesByData fs
    [profileEnabled; profileVisible; onlineService;
     storageSupported aStorageName aStorageMustBeEnabled].

(** *** Logs and new profiles *)

(** [SyncLog::toXml] (null if the log cannot be converted) and
    [QDomDocument::setContent(const QString&, true)], the parser that
    [addProfile] runs on its argument. *)
Variable logToXml : SyncLog → option QDomElement.
Variable setContentNS : string → option QDomElement.

(** [ProfileManager::saveLog].  The file is opened, and thereby truncated,
    before the log is converted; when the conversion fails the function
    returns with the file left empty. *)
Definition saveLog (fs : FileSystem) (aLog : SyncLog) : FileSystem * bool :=
  let fileName := logFilePath TYPE_SYNC (profileName aLog) in
  if isLocked fs fileName then (fs, false)
  else
    let fs1 := setFiles (<[fileName := ""]> (files fs)) fs in
    match logToXml aLog with
    | None => (fs1, false)
    | Some root =>
        (setFiles (<[fileName := toString root]> (files fs1)) fs1, true)
    end.

(** [ProfileManager::saveSyncResults]. *)
Definition saveSyncResults (fs : FileSystem) (aProfileName : string)
    (aResults : SyncResults) : FileSystem * bool :=
  let log := match loadLog fs aProfileName with
             | Some l => l
             | None => newSyncLog aProfileName
             end in
  saveLog fs (addResults aResults log).

(** [ProfileManager::addProfile].  The result of [save] is not looked
    at. *)
Definition addProfile (fs : FileSystem) (aProfileAsXml : string)
  : FileSystem * string :=
  if negb (isEmpty aProfileAsXml) then
    match setContentNS aProfileAsXml with
    | Some doc =>
        let profile := createProfile doc in
        ((save fs profile).1, name profile)
    | None => (fs, "")
    end
  else (fs, "").

(** ** Notions used in the proofs *)

(** The sub-profiles below a list of children, in the order of
    [allSubProfiles]. *)
Definition nodesOf (cs : list Profile) : list Profile :=
  flat_map (λ c, c :: allSubProfiles c) cs.

(** The identities of the sub-profiles, with repetitions, and their
    number: the [size()] of the list that [allSubProfiles] returns. *)
Definition subIds (p : Profile) : list (string * string) :=
  profileId <$> allSubProfiles p.

Definition subCount (p : Profile) : nat := length (allSubProfiles p).

(** A child either is the sub-profile looked for, or contains it, or
    neither. *)
Definition locateHit (aName aType : string) (c : Profile) (π : Path) : Prop :=
  (sameId aName aType c = true ∧ π = [])
  ∨ (sameId aName aType c = false ∧ locate aName aType c = Some π).

Definition locateMiss (aName aType : string) (c : Profile) : Prop :=
  sameId aName aType c = false ∧ locate aName aType c = None.

(** Every file of [fs'] has the contents of some file of [fs]: loading
    copies and deletes files, it never writes new contents. *)
Definition derivedFrom (fs' fs : FileSystem) : Prop :=
  ∀ path content, files fs' !! path = Some content →
    ∃ path', files fs !! path' = Some content.

(** [q] is [p] after some sub-profiles were added, all with identities
    from [U]; if their number went up, so did the number of distinct
    identities. *)
Definition growsWithin (U : gset (string * string)) (p q : Profile) : Prop :=
  subCount p ≤ subCount q
  ∧ subProfileIds p ⊆ subProfileIds q
  ∧ subProfileIds q ⊆ subProfileIds p ∪ U
  ∧ (subCount p < subCount q →
     size (subProfileIds p) < size (subProfileIds q)).

(** The criterion that asks what the four-string [getSyncProfilesByData]
    asks: the key exists if no value is given, and equals the value
    otherwise. *)
Definition criterionFor (aSubProfileName aSubProfileType aKey aValue : string)
  : SearchCriteria :=
  mkCriteria (if isEmpty aValue then EXISTS else EQUAL)
             aSubProfileName aSubProfileType aKey aValue.

(** The pointer refers to a sub-profile that is marked as loaded. *)
Definition loadedAt (p : Profile) (π : Path) : Prop :=
  ∃ v, nodeAt p π = Some v ∧ isLoaded v = true.

(** The body of [load], once the path is resolved. *)
Definition loadAt (fs : FileSystem) (profilePath : string)
  : FileSystem * option Profile :=
  let backupProfilePath := profilePath +:+ BACKUP_EXT in
  let fs1 := restoreBackupIfFound fs profilePath backupProfilePath in
  match parseFile fs1 profilePath with
  | Some doc =>
      let fs2 := if QFile_exists fs1 backupProfilePath
                 then (QFile_remove fs1 backupProfilePath).1
                 else fs1 in
      (fs2, Some (createProfile doc))
  | None => (fs1, None)
  end.

(** ** Properties *)

(** *** Strings and paths *)

Lemma eqb_bool_decide (a b : string) : String.eqb a b = bool_decide (a = b).
Proof.
  destruct (String.eqb_spec a b) as [->|Hne].
  - by rewrite bool_decide_eq_true_2.
  - by rewrite bool_decide_eq_false_2.
Qed.

Lemma isEmpty_true (s : string) : isEmpty s = true ↔ s = "".
Proof. unfold isEmpty. apply String.eqb_eq. Qed.

Lemma hasSeparator_app (a b : string) :
  hasSeparator (a +:+ b) = hasSeparator a || hasSeparator b.
Proof.
  induction a as [|c a IH]; simpl; [done|].
  rewrite IH. by rewrite orb_assoc.
Qed.

Lemma append_length (a b : string) :
  String.length (a +:+ b) = String.length a + String.length b.
Proof. induction a as [|c a IH]; simpl; [done|]. by rewrite IH. Qed.

(** A path and the path of its backup are different files. *)
Lemma backup_path_ne (path : string) : path +:+ BACKUP_EXT ≠ path.
Proof.
  intros Heq. apply (f_equal String.length) in Heq.
  rewrite append_length in Heq. simpl in Heq. lia.
Qed.

(** The profile file of a name without separator is not a log file. *)
Lemma profile_path_ne_log_path (aNewName aName : string) :
  hasSeparator aNewName = false →
  profileFilePath iPrimaryPath TYPE_SYNC aNewName ≠ logFilePath TYPE_SYNC aName.
Proof.
  intros Hsep Heq. unfold profileFilePath, logFilePath in Heq.
  do 4 apply String.app_inj in Heq.
  apply (f_equal hasSeparator) in Heq.
  rewrite !hasSeparator_app, Hsep in Heq. simpl in Heq. discriminate.
Qed.

(** *** The file system primitives *)

Lemma setFiles_id (fs : FileSystem) : setFiles (files fs) fs = fs.
Proof. by destruct fs. Qed.

Lemma QFile_exists_true (fs : FileSystem) (path : string) :
  QFile_exists fs path = true ↔ is_Some (files fs !! path).
Proof.
  unfold QFile_exists. destruct (files fs !! path) as [c|].
  - split; [by eexists | done].
  - split; [done | by intros [? ?]].
Qed.

Lemma QFile_exists_false (fs : FileSystem) (path : string) :
  QFile_exists fs path = false ↔ files fs !! path = None.
Proof. unfold QFile_exists. by destruct (files fs !! path). Qed.

(** Without a backup file the restore step does nothing. *)
Lemma restoreBackupIfFound_none (fs : FileSystem) (aProfilePath aBackupPath : string) :
  QFile_exists fs aBackupPath = false →
  restoreBackupIfFound fs aProfilePath aBackupPath = fs.
Proof. intros H. unfold restoreBackupIfFound. by rewrite H. Qed.

(** [load] without a pending backup reads the resolved file and leaves the
    file system as it is. *)
Lemma load_no_backup (fs : FileSystem) (aName aType : string) :
  QFile_exists fs (findProfileFile fs aName aType +:+ BACKUP_EXT) = false →
  load fs aName aType =
    (fs, createProfile <$> parseFile fs (findProfileFile fs aName aType)).
Proof.
  intros Hbak. unfold load.
  rewrite restoreBackupIfFound_none by done.
  destruct (parseFile fs _); simpl; [|done]. by rewrite Hbak.
Qed.

(** *** The search predicates *)

Lemma matchesAll_spec (aProfile : Profile) (aCriteria : list SearchCriteria) :
  matchesAll aProfile aCriteria = true ↔
  ∀ c, c ∈ aCriteria → matchProfile aProfile c = true.
Proof.
  induction aCriteria as [|c cs IH]; simpl.
  - split; [|done]. intros _ c Hc. by apply elem_of_nil in Hc.
  - destruct (matchProfile aProfile c) eqn:Hm; simpl.
    + rewrite IH. split.
      * intros H c' [->|Hc']%elem_of_cons; auto.
      * intros H c' Hc'. apply H. by right.
    + split; [done|]. intros H. rewrite <- Hm. apply H. by left.
Qed.

Lemma selectMatching_spec (allProfiles : list SyncProfile)
    (aCriteria : list SearchCriteria) (P : SyncProfile) :
  P ∈ selectMatching allProfiles aCriteria ↔
  P ∈ allProfiles ∧ matchesAll (base P) aCriteria = true.
Proof.
  induction allProfiles as [|q rest IH]; simpl.
  - split; [intros H; by apply elem_of_nil in H|].
    intros [H _]. by apply elem_of_nil in H.
  - destruct (matchesAll (base q) aCriteria) eqn:Hq.
    + rewrite !elem_of_cons, IH. split.
      * intros [->|[? ?]]; auto.
      * intros [[->|?] ?]; auto.
    + rewrite elem_of_cons, IH. split.
      * intros [? ?]; auto.
      * intros [[->|?] Hm]; [congruence|auto].
Qed.

(** C5. A sync profile is in the result of [getSyncProfilesByData] exactly
    when [allSyncProfiles] enumerates it and every criterion of the list
    matches it: the criteria are combined by logical AND. *)
Theorem getSyncProfilesByData_and (fs : FileSystem)
    (aCriteria : list SearchCriteria) (P : SyncProfile) :
  P ∈ (getSyncProfilesByData fs aCriteria).2 ↔
  P ∈ (allSyncProfiles fs).2 ∧
  ∀ c, c ∈ aCriteria → matchProfile (base P) c = true.
Proof.
  unfold getSyncProfilesByData.
  destruct (allSyncProfiles fs) as [fs' allProfiles]; simpl.
  by rewrite selectMatching_spec, matchesAll_spec.
Qed.

(** C6. The key test: with an empty key the criterion matches iff its type
    is not NOT_EXISTS; otherwise, with [v] the profile's value for the key,
    a null [v] matches iff the type is NOT_EXISTS or NOT_EQUAL, and a
    non-null [v] matches for EXISTS, fails for NOT_EXISTS, matches EQUAL iff
    [v] equals the criterion's value and NOT_EQUAL iff it differs. *)
Theorem matchKey_table (aProfile : Profile) (aCriteria : SearchCriteria) :
  matchKey aProfile aCriteria =
    if bool_decide (iKey aCriteria = "") then
      bool_decide (iType aCriteria ≠ NOT_EXISTS)
    else
      match key aProfile (iKey aCriteria) with
      | None =>
          bool_decide (iType aCriteria = NOT_EXISTS ∨ iType aCriteria = NOT_EQUAL)
      | Some v =>
          match iType aCriteria with
          | EXISTS => true
          | NOT_EXISTS => false
          | EQUAL => bool_decide (v = iValue aCriteria)
          | NOT_EQUAL => bool_decide (v ≠ iValue aCriteria)
          end
      end.
Proof.
  unfold matchKey, isEmpty. rewrite eqb_bool_decide.
  destruct (bool_decide (iKey aCriteria = "")); simpl.
  - by destruct (iType aCriteria).
  - destruct (key aProfile (iKey aCriteria)) as [v|].
    + destruct (iType aCriteria); try done.
      * apply eqb_bool_decide.
      * rewrite eqb_bool_decide. by rewrite bool_decide_not.
    + by destruct (iType aCriteria).
Qed.

(** *** The path resolver and the loader *)

Lemma load_result (fs : FileSystem) (aName aType : string) :
  (load fs aName aType).2 =
    createProfile <$>
      parseFile (restoreBackupIfFound fs (findProfileFile fs aName aType)
                   (findProfileFile fs aName aType +:+ BACKUP_EXT))
                (findProfileFile fs aName aType).
Proof. unfold load. by destruct (parseFile _ _). Qed.

(** C4. The resolver returns the primary path if that file exists, else
    the secondary path if that file exists, else the primary path.  When
    both roots contain the file, [load] returns what the primary file holds
    (after the restore step, which then works on the primary file and its
    backup), and without a pending backup it reads the primary file as it
    is and changes nothing. *)
Theorem findProfileFile_overlay (fs : FileSystem) (aName aType : string) :
  let primaryPath := profileFilePath iPrimaryPath aType aName in
  let secondaryPath := profileFilePath iSecondaryPath aType aName in
  findProfileFile fs aName aType =
    (if QFile_exists fs primaryPath then primaryPath
     else if QFile_exists fs secondaryPath then secondaryPath
     else primaryPath)
  ∧ (QFile_exists fs primaryPath = true →
     QFile_exists fs secondaryPath = true →
     (load fs aName aType).2 =
       createProfile <$>
         parseFile (restoreBackupIfFound fs primaryPath
                      (primaryPath +:+ BACKUP_EXT)) primaryPath
     ∧ (QFile_exists fs (primaryPath +:+ BACKUP_EXT) = false →
        load fs aName aType = (fs, createProfile <$> parseFile fs primaryPath))).
Proof.
  intros primaryPath secondaryPath.
  assert (Hfind : findProfileFile fs aName aType =
    (if QFile_exists fs primaryPath then primaryPath
     else if QFile_exists fs secondaryPath then secondaryPath
     else primaryPath)).
  { unfold findProfileFile, primaryPath, secondaryPath, profileFilePath.
    destruct (QFile_exists fs (iPrimaryPath +:+ _)); [done|].
    by destruct (QFile_exists fs (iSecondaryPath +:+ _)). }
  split; [done|]. intros Hp Hs. rewrite Hp in Hfind. split.
  - by rewrite load_result, Hfind.
  - intros Hbak. rewrite load_no_backup; rewrite Hfind; done.
Qed.

(** *** [remove] and [rename] *)

Lemma parseFile_remove_ne (fs : FileSystem) (removed path : string) :
  path ≠ removed →
  parseFile (QFile_remove fs removed).1 path = parseFile fs path.
Proof.
  intros Hne. unfold QFile_remove, parseFile.
  destruct (_ && _); simpl; [|done].
  by rewrite lookup_delete_ne.
Qed.

(** What [load] returns is what the resolved file holds afterwards. *)
Lemma load_Some_parseFile (fs fs1 : FileSystem) (aName aType : string) (P : Profile) :
  load fs aName aType = (fs1, Some P) →
  ∃ doc, parseFile fs1 (findProfileFile fs aName aType) = Some doc
         ∧ createProfile doc = P.
Proof.
  unfold load. set (path := findProfileFile fs aName aType).
  set (fs' := restoreBackupIfFound fs path (path +:+ BACKUP_EXT)).
  destruct (parseFile fs' path) as [doc|] eqn:Hparse; [|done].
  intros [= <- <-]. exists doc. split; [|done].
  destruct (QFile_exists fs' (path +:+ BACKUP_EXT)); [|done].
  rewrite parseFile_remove_ne; [done|].
  intros Heq. by apply (backup_path_ne path).
Qed.

(** Whatever the profile file, [remove] reports a failure when there is no
    log file to remove. *)
Lemma remove_needs_log (fs : FileSystem) (aName aType : string) :
  QFile_exists (load fs aName aType).1 (logFilePath aType aName) = false →
  profileFilePath iPrimaryPath aType aName ≠ logFilePath aType aName →
  (remove fs aName aType).2 = false.
Proof.
  intros Hlog Hne. unfold remove.
  destruct (load fs aName aType) as [fs1 [p|]]; [|done]. simpl in Hlog.
  destruct (isProtected p); [done|]. simpl.
  unfold QFile_remove at 1.
  destruct (QFile_exists fs1 _ && _); [|done].
  unfold QFile_remove, QFile_exists. simpl.
  rewrite lookup_delete_ne by done.
  apply QFile_exists_false in Hlog. by rewrite Hlog.
Qed.

Lemma QFile_remove_other (fs : FileSystem) (removed path : string) :
  path ≠ removed →
  files (QFile_remove fs removed).1 !! path = files fs !! path.
Proof.
  intros Hne. unfold QFile_remove. destruct (_ && _); simpl; [|done].
  by rewrite lookup_delete_ne.
Qed.

(** Without a pending backup, [remove] touches the primary profile file
    and the log file only; a file under the secondary root stays. *)
Lemma remove_frame (fs : FileSystem) (aName aType path : string) :
  QFile_exists fs (findProfileFile fs aName aType +:+ BACKUP_EXT) = false →
  path ≠ profileFilePath iPrimaryPath aType aName →
  path ≠ logFilePath aType aName →
  files (remove fs aName aType).1 !! path = files fs !! path.
Proof.
  intros Hbak Hp Hl. unfold remove. rewrite load_no_backup by done.
  destruct (createProfile <$> parseFile fs _) as [p|]; [|done].
  destruct (isProtected p); [done|]. simpl.
  destruct (QFile_remove fs (profileFilePath iPrimaryPath aType aName))
    as [fs2 success] eqn:Hrm.
  assert (files fs2 !! path = files fs !! path) as Hfs2.
  { change fs2 with (fs2, success).1. rewrite <- Hrm.
    by apply QFile_remove_other. }
  destruct success; [|done].
  by rewrite QFile_remove_other.
Qed.

(** [save] looks for the old profile file under [<root>/<name>/<type>.xml];
    when there is no such file it makes no backup, whether or not the
    profile has a file. *)
Lemma saveBackup_swapped (fs : FileSystem) (aProfile : Profile) :
  QFile_exists fs
    (profileFilePath iPrimaryPath (name aProfile) (type aProfile)) = false →
  QFile_exists fs
    (profileFilePath iSecondaryPath (name aProfile) (type aProfile)) = false →
  saveBackup fs aProfile = fs.
Proof.
  intros Hp Hs. unfold saveBackup, findProfileFile.
  fold (profileFilePath iPrimaryPath (name aProfile) (type aProfile)).
  fold (profileFilePath iSecondaryPath (name aProfile) (type aProfile)).
  by rewrite Hp, Hs; simpl; rewrite Hp.
Qed.

(** C3. When the profile that [load] finds for [(name, type)] is protected,
    [remove] returns false and deletes nothing: the file system is the one
    [load] leaves behind, the resolved profile file still holds the
    profile, and without a pending backup the file system is unchanged. *)
Theorem remove_protected (fs fs1 : FileSystem) (aName aType : string) (P : Profile) :
  load fs aName aType = (fs1, Some P) →
  isProtected P = true →
  remove fs aName aType = (fs1, false)
  ∧ (∃ doc, parseFile fs1 (findProfileFile fs aName aType) = Some doc
            ∧ createProfile doc = P)
  ∧ (QFile_exists fs (findProfileFile fs aName aType +:+ BACKUP_EXT) = false →
     fs1 = fs).
Proof.
  intros Hload Hprot. split; [|split].
  - unfold remove. rewrite Hload, Hprot. done.
  - by eapply load_Some_parseFile.
  - intros Hbak. rewrite load_no_backup in Hload by done. congruence.
Qed.


(** *** Profile trees *)

Lemma allSubProfiles_unfold (p : Profile) :
  allSubProfiles p = nodesOf (iSubProfiles p).
Proof. by destruct p. Qed.

Lemma nodesOf_app (cs1 cs2 : list Profile) :
  nodesOf (cs1 ++ cs2) = nodesOf cs1 ++ nodesOf cs2.
Proof. unfold nodesOf. apply flat_map_app. Qed.

Lemma setSubProfiles_id (p : Profile) : setSubProfiles (iSubProfiles p) p = p.
Proof. by destruct p. Qed.

Lemma updateAt_profileId (f : Profile → Profile) (π : Path) (p : Profile) :
  (∀ v, profileId (f v) = profileId v) →
  profileId (updateAt π f p) = profileId p.
Proof. intros Hf. destruct π; simpl; [apply Hf | done]. Qed.

Lemma alter_fixed (g : Profile → Profile) (cs : list Profile) (i : nat) :
  (∀ c, cs !! i = Some c → g c = c) → alter g i cs = cs.
Proof.
  revert i. induction cs as [|c cs IH]; intros [|i] Hg; simpl; try done.
  - f_equal. by apply Hg.
  - f_equal. by apply IH.
Qed.

(** An update through a dangling pointer, or one that does not change the
    node, leaves the tree as it is. *)
Lemma updateAt_noop (f : Profile → Profile) (π : Path) (p : Profile) :
  (∀ v, nodeAt p π = Some v → f v = v) → updateAt π f p = p.
Proof.
  revert p. induction π as [|i π IH]; intros p Hf; simpl.
  - by apply Hf.
  - rewrite alter_fixed; [apply setSubProfiles_id|].
    intros c Hc. apply IH. intros v Hv. apply Hf. simpl. by rewrite Hc.
Qed.

Lemma nodeAt_updateAt (f : Profile → Profile) (π : Path) (p v : Profile) :
  nodeAt p π = Some v → nodeAt (updateAt π f p) π = Some (f v).
Proof.
  revert p. induction π as [|i π IH]; intros p; simpl.
  - by intros [= ->].
  - destruct (iSubProfiles p !! i) as [c|] eqn:Hc; [|done].
    intros Hv. rewrite list_lookup_alter_eq, Hc. simpl. by apply IH.
Qed.

Lemma subIds_alter (g : Profile → Profile) (extra : list (string * string))
    (cs : list Profile) (i : nat) (c : Profile) :
  cs !! i = Some c →
  profileId (g c) = profileId c →
  subIds (g c) ≡ₚ subIds c ++ extra →
  profileId <$> nodesOf (alter g i cs) ≡ₚ (profileId <$> nodesOf cs) ++ extra.
Proof.
  revert i. induction cs as [|d cs IH]; intros [|i] Hi Hid Hsub;
    simpl in *; try done.
  - injection Hi as ->. rewrite Hid. constructor.
    rewrite !fmap_app. fold (subIds (g c)). fold (subIds c). rewrite Hsub.
    rewrite <- !(assoc_L (++)). apply Permutation_app_head.
    apply Permutation_app_comm.
  - constructor. rewrite !fmap_app, <- (assoc_L (++)).
    apply Permutation_app_head. by apply IH.
Qed.

(** The effect of an update that keeps the identity of the node and adds
    the identities [extra] below it. *)
Lemma subIds_updateAt (f : Profile → Profile) (extra : list (string * string))
    (π : Path) (p v : Profile) :
  (∀ w, profileId (f w) = profileId w) →
  nodeAt p π = Some v →
  subIds (f v) ≡ₚ subIds v ++ extra →
  subIds (updateAt π f p) ≡ₚ subIds p ++ extra.
Proof.
  intros Hf. revert p. induction π as [|i π IH]; intros p; simpl.
  - by intros [= ->].
  - destruct (iSubProfiles p !! i) as [c|] eqn:Hc; [|done].
    intros Hv Hsub. unfold subIds at 1 2.
    rewrite (allSubProfiles_unfold p). simpl.
    eapply subIds_alter; [done| |by apply IH].
    by apply updateAt_profileId.
Qed.

(** *** Growth of a profile tree *)

Lemma growsWithin_refl (U : gset (string * string)) (p : Profile) :
  growsWithin U p p.
Proof.
  split; [done|]. split; [done|]. split; [apply union_subseteq_l | lia].
Qed.

Lemma growsWithin_trans (U : gset (string * string)) (p q r : Profile) :
  growsWithin U p q → growsWithin U q r → growsWithin U p r.
Proof.
  intros (Hc1 & Hs1 & Hu1 & Hz1) (Hc2 & Hs2 & Hu2 & Hz2).
  split; [lia|]. split; [by etrans|]. split.
  { etrans; [apply Hu2|]. apply union_least; [done | apply union_subseteq_r]. }
  intros Hlt.
  pose proof (subseteq_size _ _ Hs1). pose proof (subseteq_size _ _ Hs2).
  destruct (decide (subCount p < subCount q)) as [H1|H1].
  - specialize (Hz1 H1). lia.
  - assert (subCount q < subCount r) as H2 by lia. specialize (Hz2 H2). lia.
Qed.

Lemma growsWithin_mono (U U' : gset (string * string)) (p q : Profile) :
  U ⊆ U' → growsWithin U p q → growsWithin U' p q.
Proof.
  intros HU (Hc & Hs & Hu & Hz).
  split; [done|]. split; [done|]. split; [|done].
  etrans; [apply Hu|]. by apply union_mono_l.
Qed.

Lemma growsWithin_perm (p q : Profile) (extra : list (string * string)) :
  subIds q ≡ₚ subIds p ++ extra →
  (∀ x, extra !! 0 = Some x → x ∉ subIds p) →
  growsWithin (list_to_set extra) p q.
Proof.
  intros Hperm Hnew.
  assert (subCount q = subCount p + length extra) as Hcount.
  { unfold subCount. rewrite <- !(length_fmap profileId).
    fold (subIds q). fold (subIds p).
    by rewrite Hperm, length_app. }
  assert (subProfileIds q = subProfileIds p ∪ list_to_set extra) as Hset.
  { unfold subProfileIds. fold (subIds q). fold (subIds p).
    by rewrite Hperm, list_to_set_app_L. }
  split; [lia|]. rewrite Hset.
  split; [apply union_subseteq_l|]. split; [done|].
  intros Hlt. apply subset_size.
  destruct extra as [|x extra]; [simpl in Hcount; lia|].
  specialize (Hnew x eq_refl).
  assert (x ∉ subProfileIds p).
  { unfold subProfileIds. by rewrite elem_of_list_to_set. }
  split; [apply union_subseteq_l|].
  intros Hsub. assert (x ∈ subProfileIds p); [|done].
  apply Hsub. apply elem_of_union_r. rewrite list_to_set_cons.
  apply elem_of_union_l. by apply elem_of_singleton.
Qed.

Lemma isPresent_spec (root c : Profile) :
  isPresent root c = true ↔ profileId c ∈ subIds root.
Proof.
  unfold isPresent, subIds. rewrite existsb_exists, list_elem_of_fmap.
  split.
  - intros (x & Hx & Hid). exists x. apply list_elem_of_In in Hx.
    split; [|done]. unfold sameId in Hid.
    apply andb_true_iff in Hid as [Hn Ht].
    apply String.eqb_eq in Hn, Ht. unfold profileId. by rewrite Hn, Ht.
  - intros (x & Hid & Hx). exists x. apply list_elem_of_In in Hx.
    split; [done|]. unfold profileId in Hid. injection Hid as Hn Ht.
    unfold sameId. rewrite <- Hn, <- Ht, !String.eqb_refl. done.
Qed.

Lemma subIds_appendSubProfile (c v : Profile) :
  subIds (appendSubProfile c v) = subIds v ++ profileId c :: subIds c.
Proof.
  unfold subIds. rewrite (allSubProfiles_unfold (appendSubProfile c v)).
  simpl. rewrite nodesOf_app, fmap_app, <- allSubProfiles_unfold.
  simpl. by rewrite app_nil_r.
Qed.

(** The identities below a child are among the identities below its
    parent. *)
Lemma child_ids_subseteq (c ext : Profile) :
  c ∈ iSubProfiles ext →
  list_to_set (profileId c :: subIds c) ⊆ subProfileIds ext.
Proof.
  intros Hc x. unfold subProfileIds, subIds.
  rewrite !elem_of_list_to_set, (allSubProfiles_unfold ext).
  change (profileId c :: (profileId <$> allSubProfiles c))
    with (profileId <$> c :: allSubProfiles c).
  rewrite !list_elem_of_fmap. intros (y & -> & Hy). exists y. split; [done|].
  apply list_elem_of_In, in_flat_map. exists c.
  split; by apply list_elem_of_In.
Qed.

Lemma mergeSubProfile_grows (π : Path) (root c : Profile) :
  growsWithin (list_to_set (profileId c :: subIds c))
              root (mergeSubProfile π root c).
Proof.
  unfold mergeSubProfile.
  destruct (isPresent root c) eqn:Hpres; [apply growsWithin_refl|].
  destruct (nodeAt root π) as [v|] eqn:Hv.
  - apply growsWithin_perm.
    + eapply subIds_updateAt; [done | done |].
      by rewrite subIds_appendSubProfile.
    + intros x [= <-] Hin. apply isPresent_spec in Hin. congruence.
  - rewrite updateAt_noop; [apply growsWithin_refl|]. intros v. by rewrite Hv.
Qed.

(** An update that keeps the identity and the children of the node. *)
Lemma updateAt_flat_grows (U : gset (string * string)) (f : Profile → Profile)
    (π : Path) (p : Profile) :
  (∀ w, profileId (f w) = profileId w) →
  (∀ w, iSubProfiles (f w) = iSubProfiles w) →
  growsWithin U p (updateAt π f p).
Proof.
  intros Hid Hsubs. destruct (nodeAt p π) as [v|] eqn:Hv.
  - apply (growsWithin_mono (list_to_set [])); [apply empty_subseteq|].
    apply growsWithin_perm; [|done].
    eapply subIds_updateAt; [done | done |].
    unfold subIds. by rewrite !allSubProfiles_unfold, Hsubs, app_nil_r.
  - rewrite updateAt_noop; [apply growsWithin_refl|]. intros v. by rewrite Hv.
Qed.

Lemma fold_mergeSubProfile_grows (π : Path) (ext : Profile) (cs : list Profile)
    (root : Profile) :
  cs ⊆ iSubProfiles ext →
  growsWithin (subProfileIds ext) root (fold_left (mergeSubProfile π) cs root).
Proof.
  revert root. induction cs as [|c cs IH]; intros root Hcs; simpl.
  - apply growsWithin_refl.
  - eapply growsWithin_trans.
    + eapply growsWithin_mono; [|apply mergeSubProfile_grows].
      apply child_ids_subseteq, Hcs. by left.
    + apply IH. intros d Hd. apply Hcs. by right.
Qed.

(** [merge] only adds sub-profiles, with identities of the external
    profile's sub-profiles, and when it adds any, the set of identities in
    the root grows. *)
Lemma merge_grows (root ext : Profile) :
  growsWithin (subProfileIds ext) root (merge root ext).
Proof.
  unfold merge. destruct (locate _ _ root) as [π|]; [|apply growsWithin_refl].
  eapply growsWithin_trans; [|by apply fold_mergeSubProfile_grows].
  by apply updateAt_flat_grows.
Qed.

Lemma length_subPathsFrom (cs : list Profile) (i : nat) :
  Forall (λ c, length (allSubPaths c) = subCount c) cs →
  length (subPathsFrom allSubPaths i cs) = length (nodesOf cs).
Proof.
  intros Hcs. revert i. induction Hcs as [|c cs Hc _ IH]; intros i; [done|].
  change (subPathsFrom allSubPaths i (c :: cs))
    with (([i] :: map (cons i) (allSubPaths c))
            ++ subPathsFrom allSubPaths (S i) cs).
  change (nodesOf (c :: cs)) with ((c :: allSubProfiles c) ++ nodesOf cs).
  rewrite !length_app, IH.
  change (length ([i] :: map (cons i) (allSubPaths c)))
    with (S (length (map (cons i) (allSubPaths c)))).
  rewrite length_map, Hc. done.
Qed.

(** [allSubPaths] has one pointer for each entry of [allSubProfiles]. *)
Lemma length_allSubPaths (p : Profile) : length (allSubPaths p) = subCount p.
Proof.
  induction p as [n t k f subs l IH] using Profile_tree_ind.
  unfold subCount. simpl. by apply length_subPathsFrom.
Qed.

Lemma subPathsFrom_nodes (p : Profile) (cs : list Profile) (i : nat) :
  (∀ j c, cs !! j = Some c → iSubProfiles p !! (i + j) = Some c) →
  Forall (λ c, Forall2 (λ π v, nodeAt c π = Some v)
                       (allSubPaths c) (allSubProfiles c)) cs →
  Forall2 (λ π v, nodeAt p π = Some v)
          (subPathsFrom allSubPaths i cs) (nodesOf cs).
Proof.
  intros Hall Hcs. revert i Hall.
  induction Hcs as [|c cs Hc _ IH]; intros i Hall; [constructor|].
  change (subPathsFrom allSubPaths i (c :: cs))
    with (([i] :: map (cons i) (allSubPaths c))
            ++ subPathsFrom allSubPaths (S i) cs).
  change (nodesOf (c :: cs)) with ((c :: allSubProfiles c) ++ nodesOf cs).
  assert (iSubProfiles p !! i = Some c) as Hi.
  { rewrite <- (Nat.add_0_r i). by apply Hall. }
  apply Forall2_app.
  - constructor; [simpl; by rewrite Hi|].
    apply Forall2_fmap_l. eapply Forall2_impl; [apply Hc|].
    intros π v Hv. simpl. by rewrite Hi.
  - apply IH. intros j d Hd.
    replace (S i + j) with (i + S j) by lia. by apply Hall.
Qed.

(** The pointers of [allSubPaths] refer to the entries of
    [allSubProfiles], one by one. *)
Lemma allSubPaths_nodes (p : Profile) :
  Forall2 (λ π v, nodeAt p π = Some v) (allSubPaths p) (allSubProfiles p).
Proof.
  induction p as [n t k f subs l IH] using Profile_tree_ind.
  change (allSubPaths (mkProfile n t k f subs l))
    with (subPathsFrom allSubPaths 0 subs).
  rewrite allSubProfiles_unfold.
  by apply subPathsFrom_nodes.
Qed.

(** *** Pointers stay valid *)

Lemma nodeAt_updateAt_valid (f : Profile → Profile) (π σ : Path) (p : Profile) :
  (∀ v σ', is_Some (nodeAt v σ') → is_Some (nodeAt (f v) σ')) →
  is_Some (nodeAt p σ) → is_Some (nodeAt (updateAt π f p) σ).
Proof.
  intros Hf. revert p σ. induction π as [|i π IH]; intros p σ; simpl; [auto|].
  destruct σ as [|j σ]; simpl; [by eauto|].
  destruct (decide (i = j)) as [->|Hij].
  - rewrite list_lookup_alter_eq.
    destruct (iSubProfiles p !! j) as [c|]; simpl; [apply IH | done].
  - by rewrite list_lookup_alter_ne.
Qed.

Lemma nodeAt_same_children (v w : Profile) (σ : Path) :
  iSubProfiles w = iSubProfiles v →
  is_Some (nodeAt v σ) → is_Some (nodeAt w σ).
Proof. intros Hsubs. destruct σ; simpl; [by eauto|]. by rewrite Hsubs. Qed.

Lemma nodeAt_appendSubProfile (c v : Profile) (σ : Path) :
  is_Some (nodeAt v σ) → is_Some (nodeAt (appendSubProfile c v) σ).
Proof.
  destruct σ as [|j σ]; simpl; [by eauto|].
  destruct (iSubProfiles v !! j) as [d|] eqn:Hd; [|by intros [? ?]].
  by rewrite (lookup_app_l_Some _ _ _ _ Hd).
Qed.

Lemma merge_valid (root ext : Profile) (σ : Path) :
  is_Some (nodeAt root σ) → is_Some (nodeAt (merge root ext) σ).
Proof.
  unfold merge. destruct (locate _ _ root) as [π|]; [|done].
  intros Hσ.
  assert (is_Some (nodeAt (updateAt π (overlay ext) root) σ)) as Hσ0.
  { apply nodeAt_updateAt_valid; [|done].
    intros v σ'. by apply nodeAt_same_children. }
  revert Hσ0. generalize (updateAt π (overlay ext) root).
  induction (iSubProfiles ext) as [|c cs IH]; intros r Hr; simpl; [done|].
  apply IH. unfold mergeSubProfile. destruct (isPresent r c); [done|].
  apply nodeAt_updateAt_valid; [|done].
  intros v σ'. apply nodeAt_appendSubProfile.
Qed.

Lemma expandVisit_valid (st : FileSystem * Profile) (sub σ : Path) :
  is_Some (nodeAt st.2 σ) → is_Some (nodeAt (expandVisit st sub).2 σ).
Proof.
  intros Hσ. unfold expandVisit.
  destruct (nodeAt st.2 sub) as [node|]; [|done].
  destruct (isLoaded node); simpl; [done|].
  destruct (profile st.1 (name node) (type node)) as [fs' loaded]; simpl.
  apply nodeAt_updateAt_valid.
  - intros v σ'. by apply nodeAt_same_children.
  - destruct loaded; [by apply merge_valid | done].
Qed.

(** Every pointer of the list that a round of the expander walks through
    refers to a sub-profile when it is visited: the visits before it only
    add sub-profiles. *)
Lemma fold_expandVisit_valid (subs : list Path) (st : FileSystem * Profile)
    (σ : Path) :
  is_Some (nodeAt st.2 σ) →
  is_Some (nodeAt (fold_left expandVisit subs st).2 σ).
Proof.
  revert st. induction subs as [|sub subs IH]; intros st Hσ; simpl; [done|].
  by apply IH, expandVisit_valid.
Qed.

(** *** Loading does not invent file contents *)

Lemma derivedFrom_refl (fs : FileSystem) : derivedFrom fs fs.
Proof. intros path content H. by exists path. Qed.

Lemma derivedFrom_trans (fs1 fs2 fs3 : FileSystem) :
  derivedFrom fs1 fs2 → derivedFrom fs2 fs3 → derivedFrom fs1 fs3.
Proof.
  intros H12 H23 path content H.
  destruct (H12 _ _ H) as [path' H']. by apply (H23 path').
Qed.

Lemma QFile_remove_derived (fs : FileSystem) (path : string) :
  derivedFrom (QFile_remove fs path).1 fs.
Proof.
  unfold QFile_remove. destruct (_ && _); simpl; [|apply derivedFrom_refl].
  intros p c Hp. simpl in Hp. apply lookup_delete_Some in Hp as [_ Hp].
  by exists p.
Qed.

Lemma QFile_copy_derived (fs : FileSystem) (src dst : string) :
  derivedFrom (QFile_copy fs src dst).1 fs.
Proof.
  unfold QFile_copy.
  destruct (files fs !! src) as [content|] eqn:Hsrc; [|apply derivedFrom_refl].
  destruct (_ || _); simpl; [apply derivedFrom_refl|].
  intros p c Hp. simpl in Hp.
  apply lookup_insert_Some in Hp as [[_ <-]|[_ Hp]]; [by exists src | by exists p].
Qed.

Lemma restoreBackupIfFound_derived (fs : FileSystem) (aProfilePath aBackupPath : string) :
  derivedFrom (restoreBackupIfFound fs aProfilePath aBackupPath) fs.
Proof.
  unfold restoreBackupIfFound.
  destruct (QFile_exists fs aBackupPath); [|apply derivedFrom_refl].
  destruct (parseFile fs aBackupPath).
  - eapply derivedFrom_trans; [apply QFile_copy_derived|].
    apply QFile_remove_derived.
  - apply QFile_remove_derived.
Qed.

Lemma load_derived (fs : FileSystem) (aName aType : string) :
  derivedFrom (load fs aName aType).1 fs.
Proof.
  unfold load. destruct (parseFile _ _); simpl.
  - destruct (QFile_exists _ _).
    + eapply derivedFrom_trans; [apply QFile_remove_derived|].
      apply restoreBackupIfFound_derived.
    + apply restoreBackupIfFound_derived.
  - apply restoreBackupIfFound_derived.
Qed.

Lemma storedIds_subseteq (fs : FileSystem) (path content : string) :
  files fs !! path = Some content → storedIds content ⊆ storedIdsOf fs.
Proof.
  intros Hpath x Hx. unfold storedIdsOf. apply elem_of_union_list.
  exists (storedIds content). split; [|done].
  apply list_elem_of_fmap_2, list_elem_of_fmap. exists (path, content).
  split; [done|]. by apply elem_of_map_to_list.
Qed.

Lemma storedIdsOf_derived (fs' fs : FileSystem) :
  derivedFrom fs' fs → storedIdsOf fs' ⊆ storedIdsOf fs.
Proof.
  intros Hd x Hx. unfold storedIdsOf in Hx.
  apply elem_of_union_list in Hx as (X & HX & Hx).
  apply list_elem_of_fmap in HX as (content & -> & Hc).
  apply list_elem_of_fmap in Hc as ([path c] & -> & Hpc).
  apply elem_of_map_to_list in Hpc. simpl in *.
  destruct (Hd _ _ Hpc) as [path' Hpath'].
  by apply (storedIds_subseteq fs path' c).
Qed.

(** The sub-profiles of a loaded profile come from a file. *)
Lemma load_ids (fs : FileSystem) (aName aType : string) (ext : Profile) :
  (load fs aName aType).2 = Some ext → subProfileIds ext ⊆ storedIdsOf fs.
Proof.
  rewrite load_result.
  set (fs1 := restoreBackupIfFound fs _ _).
  unfold parseFile.
  destruct (files fs1 !! findProfileFile fs aName aType) as [content|] eqn:Hc;
    [|done].
  destruct (isUnreadable fs1 _); [done|].
  destruct (setContent content) as [doc|] eqn:Hdoc; [|done].
  intros [= <-].
  destruct (restoreBackupIfFound_derived fs _ _ _ _ Hc) as [path' Hpath'].
  etrans; [|by apply (storedIds_subseteq fs path' content)].
  unfold storedIds. by rewrite Hdoc.
Qed.

(** *** Termination of the expander *)

Lemma expandVisit_inv (fs0 : FileSystem) (U : gset (string * string))
    (st : FileSystem * Profile) (sub : Path) :
  storedIdsOf fs0 ⊆ U →
  derivedFrom st.1 fs0 →
  derivedFrom (expandVisit st sub).1 fs0
  ∧ growsWithin U st.2 (expandVisit st sub).2.
Proof.
  intros HU Hd. unfold expandVisit.
  destruct (nodeAt st.2 sub) as [node|]; [|split; [done|apply growsWithin_refl]].
  destruct (isLoaded node); simpl; [split; [done|apply growsWithin_refl]|].
  unfold profile.
  pose proof (load_derived st.1 (name node) (type node)) as Hd'.
  pose proof (load_ids st.1 (name node) (type node)) as Hids.
  destruct (load st.1 (name node) (type node)) as [fs' loaded]; simpl in *.
  split; [by eapply derivedFrom_trans|].
  eapply growsWithin_trans; [|by apply updateAt_flat_grows].
  destruct loaded as [ext|]; [|apply growsWithin_refl].
  eapply growsWithin_mono; [|apply merge_grows].
  etrans; [by apply Hids|]. etrans; [by apply storedIdsOf_derived|]. done.
Qed.

Lemma fold_expandVisit_inv (fs0 : FileSystem) (U : gset (string * string))
    (subs : list Path) (st : FileSystem * Profile) :
  storedIdsOf fs0 ⊆ U →
  derivedFrom st.1 fs0 →
  derivedFrom (fold_left expandVisit subs st).1 fs0
  ∧ growsWithin U st.2 (fold_left expandVisit subs st).2.
Proof.
  intros HU. revert st. induction subs as [|sub subs IH]; intros st Hd; simpl.
  - split; [done|apply growsWithin_refl].
  - destruct (expandVisit_inv fs0 U st sub HU Hd) as [Hd1 Hg1].
    destruct (IH _ Hd1) as [Hd2 Hg2].
    split; [done|]. by eapply growsWithin_trans.
Qed.

(** The loop returns as soon as the fuel exceeds the number of identities
    that are still missing from the profile. *)
Lemma expandLoop_enough_fuel (fs0 : FileSystem) (U : gset (string * string))
    (fuel : nat) (fs : FileSystem) (aProfile : Profile) (prevSubCount : nat) :
  storedIdsOf fs0 ⊆ U →
  derivedFrom fs fs0 →
  subProfileIds aProfile ⊆ U →
  (prevSubCount < subCount aProfile →
   size U < fuel + size (subProfileIds aProfile)) →
  is_Some (expandLoop fuel fs aProfile (allSubPaths aProfile)
             prevSubCount (length (allSubPaths aProfile))).
Proof.
  intros HU. revert fs aProfile prevSubCount.
  induction fuel as [|fuel IH]; intros fs aProfile prevSubCount Hd Hsub Hfuel;
    rewrite length_allSubPaths in *; simpl;
    destruct (Nat.ltb_spec prevSubCount (subCount aProfile)) as [Hlt|Hge];
    try done.
  - specialize (Hfuel Hlt). pose proof (subseteq_size _ _ Hsub). lia.
  - destruct (fold_expandVisit_inv fs0 U (allSubPaths aProfile)
                (fs, aProfile) HU Hd) as [Hd' (Hc & Hs & Hu & Hz)].
    simpl in *. rewrite <- (length_allSubPaths aProfile).
    rewrite length_allSubPaths. apply IH; [done| |].
    + etrans; [apply Hu|]. by apply union_least.
    + intros Hlt'. specialize (Hz Hlt'). specialize (Hfuel Hlt). lia.
Qed.

Lemma expandLoop_S (fuel : nat) (fs : FileSystem) (aProfile : Profile)
    (subs : list Path) (prevSubCount subCount : nat) :
  expandLoop (S fuel) fs aProfile subs prevSubCount subCount =
    if prevSubCount <? subCount then
      let st := fold_left expandVisit subs (fs, aProfile) in
      expandLoop fuel st.1 st.2 (allSubPaths st.2) subCount
                 (length (allSubPaths st.2))
    else Some (fs, aProfile).
Proof. done. Qed.

Lemma expandLoop_done (fuel : nat) (fs : FileSystem) (aProfile : Profile)
    (subs : list Path) (prevSubCount subCount : nat) :
  subCount ≤ prevSubCount →
  expandLoop fuel fs aProfile subs prevSubCount subCount = Some (fs, aProfile).
Proof.
  intros Hle. destruct fuel; simpl;
    by destruct (Nat.ltb_spec prevSubCount subCount); [lia|].
Qed.

(** More fuel does not change what the loop returns. *)
Lemma expandLoop_more_fuel (fuel fuel' : nat) (fs : FileSystem)
    (aProfile : Profile) (subs : list Path) (prevSubCount subCount : nat)
    (st : FileSystem * Profile) :
  fuel ≤ fuel' →
  expandLoop fuel fs aProfile subs prevSubCount subCount = Some st →
  expandLoop fuel' fs aProfile subs prevSubCount subCount = Some st.
Proof.
  revert fuel' fs aProfile subs prevSubCount subCount.
  induction fuel as [|fuel IH];
    intros fuel' fs aProfile subs prevSubCount subCount' Hle; simpl.
  - destruct (prevSubCount <? subCount') eqn:Hlt; [done|].
    intros [= <-]. destruct fuel'; simpl; by rewrite Hlt.
  - destruct fuel' as [|fuel']; [lia|]. simpl.
    destruct (prevSubCount <? subCount'); [|done].
    apply IH. lia.
Qed.

(** One round of the loop, from a state in which the loop condition
    holds. *)
Lemma expandLoop_round (fuel : nat) (fs : FileSystem) (aProfile : Profile)
    (prevSubCount : nat) :
  prevSubCount < subCount aProfile →
  expandLoop (S fuel) fs aProfile (allSubPaths aProfile) prevSubCount
             (length (allSubPaths aProfile)) =
  let st := fold_left expandVisit (allSubPaths aProfile) (fs, aProfile) in
  expandLoop fuel st.1 st.2 (allSubPaths st.2) (subCount aProfile)
             (length (allSubPaths st.2)).
Proof.
  intros Hlt. rewrite expandLoop_S, !length_allSubPaths.
  destruct (Nat.ltb_spec prevSubCount (subCount aProfile)); [|lia].
  simpl. by rewrite length_allSubPaths.
Qed.

(** With [expandFuel] rounds, or more, the loop returns. *)
Lemma expandLoop_returns (fs : FileSystem) (aProfile : Profile) :
  ∃ st, ∀ fuel, expandFuel fs aProfile ≤ fuel →
    expandLoop fuel fs aProfile (allSubPaths aProfile) 0
               (length (allSubPaths aProfile)) = Some st.
Proof.
  destruct (expandLoop_enough_fuel fs (reachableIds fs aProfile)
              (expandFuel fs aProfile) fs aProfile 0) as [st Hst].
  - unfold reachableIds. apply union_subseteq_r.
  - apply derivedFrom_refl.
  - unfold reachableIds. apply union_subseteq_l.
  - intros _. unfold expandFuel. lia.
  - exists st. intros fuel Hfuel. by eapply expandLoop_more_fuel.
Qed.

(** C9. The loop of the expander terminates: [expandFuel] rounds suffice
    for every profile and file system, and more fuel gives the same result.
    A round that starts with the loop condition true never lowers the number
    of sub-profile entries; if the number stays the same the round is the
    last one, and the loop goes on only if the number went up.  A
    sub-profile that is already loaded is skipped: nothing is loaded or
    merged for it, whatever refers to it. *)
Theorem expandLoop_terminates (fs : FileSystem) (aProfile : Profile) :
  (∃ st, ∀ fuel, expandFuel fs aProfile ≤ fuel →
     expandLoop fuel fs aProfile (allSubPaths aProfile) 0
                (length (allSubPaths aProfile)) = Some st)
  ∧ (∀ fuel prevSubCount, prevSubCount < subCount aProfile →
     let st := fold_left expandVisit (allSubPaths aProfile) (fs, aProfile) in
     let result := expandLoop (S fuel) fs aProfile (allSubPaths aProfile)
                     prevSubCount (length (allSubPaths aProfile)) in
     subCount aProfile ≤ subCount st.2
     ∧ (subCount st.2 = subCount aProfile → result = Some st)
     ∧ (subCount aProfile < subCount st.2 →
        result = expandLoop fuel st.1 st.2 (allSubPaths st.2)
                   (subCount aProfile) (length (allSubPaths st.2))))
  ∧ (∀ sub node, nodeAt aProfile sub = Some node → isLoaded node = true →
     expandVisit (fs, aProfile) sub = (fs, aProfile)).
Proof.
  split; [|split].
  - apply expandLoop_returns.
  - intros fuel prevSubCount Hlt st result.
    unfold result. rewrite expandLoop_round by done. fold st.
    destruct (fold_expandVisit_inv fs (storedIdsOf fs) (allSubPaths aProfile)
                (fs, aProfile)) as [_ (Hc & _)];
      [done | apply derivedFrom_refl |].
    fold st in Hc. simpl in Hc. split; [done|]. split.
    + intros Heq. rewrite expandLoop_done; [by destruct st|].
      rewrite length_allSubPaths. lia.
    + done.
  - intros sub node Hnode Hloaded. unfold expandVisit. simpl.
    by rewrite Hnode, Hloaded.
Qed.

(** [expand] returns what the loop returns, marked as loaded. *)
Lemma expand_unfold (fs : FileSystem) (aProfile : Profile) :
  isLoaded aProfile = false →
  ∃ st, expandLoop (expandFuel fs aProfile) fs aProfile
          (allSubPaths aProfile) 0 (length (allSubPaths aProfile)) = Some st
        ∧ expand fs aProfile = (st.1, setLoaded true st.2).
Proof.
  intros Hl. destruct (expandLoop_returns fs aProfile) as [st Hst].
  exists st. split; [by apply Hst|].
  unfold expand. rewrite Hl, (Hst _ (le_n _)). done.
Qed.

Lemma expand_isLoaded (fs : FileSystem) (aProfile : Profile) :
  isLoaded (expand fs aProfile).2 = true.
Proof.
  unfold expand. destruct (isLoaded aProfile) eqn:Hl; [done|].
  by destruct (expandLoop _ _ _ _ _ _).
Qed.

(** *** Locating a sub-profile *)

Lemma locate_unfold (aName aType : string) (p : Profile) :
  locate aName aType p =
    locateFrom aName aType (locate aName aType) 0 (iSubProfiles p).
Proof. by destruct p. Qed.

Lemma sameId_profileId (aName aType : string) (p q : Profile) :
  profileId p = profileId q → sameId aName aType p = sameId aName aType q.
Proof. unfold profileId, sameId. by intros [= -> ->]. Qed.

(** The pointer found goes through the first child that is or contains
    the sub-profile looked for. *)
Lemma locateFrom_decompose (aName aType : string) (cs : list Profile)
    (i : nat) (π : Path) :
  locateFrom aName aType (locate aName aType) i cs = Some π →
  ∃ j c π', π = (i + j) :: π' ∧ cs !! j = Some c
            ∧ locateHit aName aType c π'
            ∧ Forall (locateMiss aName aType) (take j cs).
Proof.
  revert i. induction cs as [|c cs IH]; intros i; simpl; [done|].
  destruct (sameId aName aType c) eqn:Hid.
  - intros [= <-]. exists 0, c, []. rewrite Nat.add_0_r.
    split; [done|]. split; [done|]. split; [by left | constructor].
  - destruct (locate aName aType c) as [π0|] eqn:Hloc.
    + intros [= <-]. exists 0, c, π0. rewrite Nat.add_0_r.
      split; [done|]. split; [done|]. split; [by right | constructor].
    + intros (j & d & π' & -> & Hd & Hhit & Hmiss)%IH.
      exists (S j), d, π'. split; [f_equal; lia|]. split; [done|].
      split; [done|]. simpl. by constructor.
Qed.

Lemma locateFrom_compose (aName aType : string) (cs : list Profile)
    (i j : nat) (c : Profile) (π' : Path) :
  cs !! j = Some c →
  locateHit aName aType c π' →
  Forall (locateMiss aName aType) (take j cs) →
  locateFrom aName aType (locate aName aType) i cs = Some ((i + j) :: π').
Proof.
  revert i j. induction cs as [|d cs IH]; intros i [|j] Hc Hhit Hmiss;
    simpl in *; try done.
  - injection Hc as ->. rewrite Nat.add_0_r.
    destruct Hhit as [[-> ->]|[-> ->]]; done.
  - apply Forall_cons in Hmiss as [[-> ->] Hmiss].
    rewrite (IH (S i) j) by done. f_equal. f_equal. lia.
Qed.

(** A pointer that [locate] returns is not the root and is not dangling. *)
Lemma locate_valid (aName aType : string) (π : Path) (p : Profile) :
  locate aName aType p = Some π → π ≠ [] ∧ is_Some (nodeAt p π).
Proof.
  revert p. induction π as [|i π IH]; intros p; rewrite locate_unfold;
    intros (j & c & π' & Hπ & Hc & Hhit & _)%locateFrom_decompose; [done|].
  simpl in Hπ. injection Hπ as -> ->. split; [done|]. simpl. rewrite Hc.
  destruct Hhit as [[_ ->]|[_ Hloc]]; [by eexists|]. by apply IH.
Qed.

(** An update of the located node that keeps its identity does not move
    the pointer: what comes before the node is untouched. *)
Lemma locate_updateAt (aName aType : string) (f : Profile → Profile)
    (π : Path) (p : Profile) :
  (∀ v, profileId (f v) = profileId v) →
  locate aName aType p = Some π →
  locate aName aType (updateAt π f p) = Some π.
Proof.
  intros Hf. revert p. induction π as [|i π IH]; intros p Hloc.
  { by destruct (locate_valid _ _ _ _ Hloc). }
  rewrite locate_unfold in Hloc.
  apply locateFrom_decompose in Hloc
    as (j & c & π' & Hπ & Hc & Hhit & Hmiss).
  simpl in Hπ. injection Hπ as -> ->.
  rewrite locate_unfold. simpl.
  apply (locateFrom_compose _ _ _ 0 j (updateAt π' f c)).
  - by rewrite list_lookup_alter_eq, Hc.
  - assert (sameId aName aType (updateAt π' f c) = sameId aName aType c)
      as Hid by by apply sameId_profileId, updateAt_profileId.
    destruct Hhit as [[Hs ->]|[Hs Hloc]].
    + left. by rewrite Hid.
    + right. rewrite Hid. split; [done|]. by apply IH.
  - by rewrite take_alter_ge.
Qed.

(** *** Idempotence of [merge] *)

Lemma overlay_fixed (ext v : Profile) :
  iKeys ext ∪ iKeys v = iKeys v →
  iFields ext ∪ iFields v = iFields v →
  overlay ext v = v.
Proof. intros Hk Hf. unfold overlay. rewrite Hk, Hf. by destruct v. Qed.

Lemma overlay_overlay (ext v : Profile) :
  overlay ext (overlay ext v) = overlay ext v.
Proof.
  unfold overlay; simpl.
  by rewrite !(assoc_L (∪)), !(idemp_L (∪)).
Qed.

Lemma overlay_appendSubProfile (ext c v : Profile) :
  overlay ext v = v → overlay ext (appendSubProfile c v) = appendSubProfile c v.
Proof.
  intros Hv. unfold overlay, appendSubProfile, setSubProfiles in *; simpl.
  destruct v; simpl in *. by injection Hv as -> ->.
Qed.

(** What holds of the root while the nested sub-profiles are merged: the
    pointer still locates the target, and the target already carries the
    keys and fields of the external profile. *)
Lemma mergeSubProfile_target (ext : Profile) (π : Path) (root c : Profile) :
  (locate (name ext) (type ext) root = Some π
   ∧ ∃ v, nodeAt root π = Some v ∧ overlay ext v = v) →
  locate (name ext) (type ext) (mergeSubProfile π root c) = Some π
  ∧ ∃ v, nodeAt (mergeSubProfile π root c) π = Some v ∧ overlay ext v = v.
Proof.
  intros [Hloc (v & Hv & Hov)]. unfold mergeSubProfile.
  destruct (isPresent root c); [by eauto|]. split.
  - by apply locate_updateAt.
  - exists (appendSubProfile c v). split; [by apply nodeAt_updateAt|].
    by apply overlay_appendSubProfile.
Qed.

Lemma fold_mergeSubProfile_target (ext : Profile) (π : Path)
    (cs : list Profile) (root : Profile) :
  (locate (name ext) (type ext) root = Some π
   ∧ ∃ v, nodeAt root π = Some v ∧ overlay ext v = v) →
  locate (name ext) (type ext) (fold_left (mergeSubProfile π) cs root) = Some π
  ∧ ∃ v, nodeAt (fold_left (mergeSubProfile π) cs root) π = Some v
         ∧ overlay ext v = v.
Proof.
  revert root. induction cs as [|c cs IH]; intros root Hinv; simpl; [done|].
  by apply IH, mergeSubProfile_target.
Qed.

Lemma isPresent_grows (U : gset (string * string)) (root root' c : Profile) :
  growsWithin U root root' → isPresent root c = true → isPresent root' c = true.
Proof.
  intros (_ & Hsub & _). rewrite !isPresent_spec.
  intros Hin. apply (elem_of_list_to_set (C := gset (string * string))).
  apply Hsub. by apply elem_of_list_to_set.
Qed.

Lemma mergeSubProfile_present (π : Path) (root c : Profile) :
  is_Some (nodeAt root π) → isPresent (mergeSubProfile π root c) c = true.
Proof.
  intros [v Hv]. unfold mergeSubProfile.
  destruct (isPresent root c) eqn:Hpres; [done|].
  apply isPresent_spec.
  rewrite (subIds_updateAt (appendSubProfile c) (profileId c :: subIds c)
             π root v); [|done|done|by rewrite subIds_appendSubProfile].
  apply elem_of_app. right. by left.
Qed.

(** After the nested sub-profiles were merged, each of them is present. *)
Lemma fold_mergeSubProfile_present (ext : Profile) (π : Path)
    (cs : list Profile) (root c : Profile) :
  cs ⊆ iSubProfiles ext →
  is_Some (nodeAt root π) →
  c ∈ cs →
  isPresent (fold_left (mergeSubProfile π) cs root) c = true.
Proof.
  revert root. induction cs as [|d cs IH]; intros root Hcs Hv Hc; simpl.
  { by apply elem_of_nil in Hc. }
  assert (cs ⊆ iSubProfiles ext) as Hcs'.
  { intros x Hx. apply Hcs. by right. }
  apply elem_of_cons in Hc as [->|Hc].
  - eapply isPresent_grows; [by apply fold_mergeSubProfile_grows|].
    by apply mergeSubProfile_present.
  - apply IH; [done| |done]. unfold mergeSubProfile.
    destruct (isPresent root d); [done|].
    destruct Hv as [v Hv]. eexists. by apply nodeAt_updateAt.
Qed.

Lemma fold_mergeSubProfile_noop (π : Path) (cs : list Profile) (root : Profile) :
  (∀ c, c ∈ cs → isPresent root c = true) →
  fold_left (mergeSubProfile π) cs root = root.
Proof.
  induction cs as [|c cs IH]; intros Hpres; simpl; [done|].
  unfold mergeSubProfile at 2. rewrite Hpres by by left.
  apply IH. intros d Hd. apply Hpres. by right.
Qed.

Lemma merge_idempotent (root ext : Profile) :
  merge (merge root ext) ext = merge root ext.
Proof.
  destruct (locate (name ext) (type ext) root) as [π|] eqn:Hloc.
  - destruct (locate_valid _ _ _ _ Hloc) as [_ [v Hv]].
    set (root0 := updateAt π (overlay ext) root).
    set (root1 := fold_left (mergeSubProfile π) (iSubProfiles ext) root0).
    assert (locate (name ext) (type ext) root0 = Some π
            ∧ ∃ v0, nodeAt root0 π = Some v0 ∧ overlay ext v0 = v0) as Hinv0.
    { split; [by apply locate_updateAt|].
      exists (overlay ext v). split; [by apply nodeAt_updateAt|].
      apply overlay_overlay. }
    destruct (fold_mergeSubProfile_target ext π (iSubProfiles ext) root0 Hinv0)
      as [Hloc1 (v1 & Hv1 & Hov1)]. fold root1 in Hloc1, Hv1.
    assert (merge root ext = root1) as -> by (unfold merge; by rewrite Hloc).
    unfold merge. rewrite Hloc1.
    rewrite (updateAt_noop (overlay ext) π root1).
    + apply fold_mergeSubProfile_noop. intros c Hc.
      apply (fold_mergeSubProfile_present ext); [done| |done].
      destruct Hinv0 as [_ (v0 & Hv0 & _)]. by eexists.
    + intros w Hw. congruence.
  - assert (merge root ext = root) as -> by (unfold merge; by rewrite Hloc).
    unfold merge. by rewrite Hloc.
Qed.

(** C8. Running the expander on the result of the expander changes
    nothing, neither the profile nor the file system: the profile is loaded
    after the first run.  The merge operation is idempotent. *)
Theorem expand_idempotent (fs : FileSystem) (S : Profile) :
  expand (expand fs S).1 (expand fs S).2 = expand fs S
  ∧ isLoaded (expand fs S).2 = true
  ∧ ∀ root ext, merge (merge root ext) ext = merge root ext.
Proof.
  split; [|split].
  - unfold expand at 1. rewrite expand_isLoaded. by destruct (expand fs S).
  - apply expand_isLoaded.
  - apply merge_idempotent.
Qed.

(** *** [syncProfile] *)

(** C7. [syncProfile] loads the profile with type [sync].  If the declared
    type of what was loaded is [sync], the expander runs on it and a log is
    attached, the one stored for the name or else a new empty log that
    carries only the name; the result is returned.  If the declared type
    differs, or nothing was loaded, the result is null. *)
Theorem syncProfile_spec (fs : FileSystem) (aName : string) :
  syncProfile fs aName =
    match profile fs aName TYPE_SYNC with
    | (fs1, Some p) =>
        if bool_decide (type p = TYPE_SYNC) then
          let st := expand fs1 p in
          (st.1,
           Some (mkSyncProfile st.2
                   (Some (default (newSyncLog aName) (loadLog st.1 aName)))))
        else (fs1, None)
    | (fs1, None) => (fs1, None)
    end
  ∧ ∀ sp, (syncProfile fs aName).2 = Some sp →
      isLoaded (base sp) = true
      ∧ ∃ l, log sp = Some l
             ∧ (loadLog (syncProfile fs aName).1 aName = Some l
                ∨ (loadLog (syncProfile fs aName).1 aName = None
                   ∧ l = mkSyncLog aName [])).
Proof.
  assert (Heq : syncProfile fs aName =
    match profile fs aName TYPE_SYNC with
    | (fs1, Some p) =>
        if bool_decide (type p = TYPE_SYNC) then
          let st := expand fs1 p in
          (st.1,
           Some (mkSyncProfile st.2
                   (Some (default (newSyncLog aName) (loadLog st.1 aName)))))
        else (fs1, None)
    | (fs1, None) => (fs1, None)
    end).
  { unfold syncProfile.
    destruct (profile fs aName TYPE_SYNC) as [fs1 [p|]]; [|done].
    rewrite eqb_bool_decide.
    destruct (bool_decide (type p = TYPE_SYNC)); [|done].
    simpl. destruct (expand fs1 p) as [fs2 expanded]; simpl.
    by destruct (loadLog fs2 aName). }
  split; [done|]. rewrite Heq. clear Heq.
  destruct (profile fs aName TYPE_SYNC) as [fs1 [p|]]; [|done].
  destruct (bool_decide (type p = TYPE_SYNC)); [|done].
  simpl. intros sp [= <-]; simpl. split; [apply expand_isLoaded|].
  destruct (loadLog (expand fs1 p).1 aName) as [l|]; simpl; eauto.
Qed.

(** ** Further properties of the loader and the mutators *)

(** *** What the primitives leave alone *)

Lemma QFile_copy_other (fs : FileSystem) (src dst path : string) :
  path ≠ dst →
  files (QFile_copy fs src dst).1 !! path = files fs !! path.
Proof using Type.
  intros Hne. unfold QFile_copy. destruct (files fs !! src); [|done].
  destruct (_ || _); simpl; [done|]. by rewrite lookup_insert_ne.
Qed.

Lemma QFile_remove_locked (fs : FileSystem) (path : string) :
  locked (QFile_remove fs path).1 = locked fs
  ∧ unreadable (QFile_remove fs path).1 = unreadable fs.
Proof using Type. unfold QFile_remove. by destruct (_ && _). Qed.

Lemma QFile_copy_locked (fs : FileSystem) (src dst : string) :
  locked (QFile_copy fs src dst).1 = locked fs
  ∧ unreadable (QFile_copy fs src dst).1 = unreadable fs.
Proof using Type.
  unfold QFile_copy. destruct (files fs !! src); [|done].
  by destruct (_ || _).
Qed.

Lemma restoreBackupIfFound_other (fs : FileSystem)
    (aProfilePath aBackupPath path : string) :
  path ≠ aProfilePath → path ≠ aBackupPath →
  files (restoreBackupIfFound fs aProfilePath aBackupPath) !! path
    = files fs !! path.
Proof using Type.
  intros Hp Hb. unfold restoreBackupIfFound.
  destruct (QFile_exists fs aBackupPath); [|done].
  destruct (parseFile fs aBackupPath).
  - by rewrite QFile_copy_other, QFile_remove_other.
  - by rewrite QFile_remove_other.
Qed.

(** X1. [load] touches the resolved profile file and its backup, and no other
    file. *)
Theorem load_frame (fs : FileSystem) (aName aType path : string) :
  path ≠ findProfileFile fs aName aType →
  path ≠ findProfileFile fs aName aType +:+ BACKUP_EXT →
  files (load fs aName aType).1 !! path = files fs !! path.
Proof using Type.
  intros Hp Hb. unfold load. destruct (parseFile _ _); simpl.
  - destruct (QFile_exists _ _).
    + by rewrite QFile_remove_other, restoreBackupIfFound_other.
    + by rewrite restoreBackupIfFound_other.
  - by rewrite restoreBackupIfFound_other.
Qed.

(** X2. A backup that parses is authoritative: [load] puts its contents in
    place of the profile file, returns the profile of the backup and removes
    the backup, whatever the profile file held. *)
Theorem load_from_backup (fs : FileSystem) (aName aType content : string)
    (doc : QDomElement) :
  let path := findProfileFile fs aName aType in
  files fs !! (path +:+ BACKUP_EXT) = Some content →
  setContent content = Some doc →
  isUnreadable fs (path +:+ BACKUP_EXT) = false →
  isUnreadable fs path = false →
  isLocked fs path = false →
  isLocked fs (path +:+ BACKUP_EXT) = false →
  load fs aName aType =
    (setFiles (<[path := content]> (delete (path +:+ BACKUP_EXT) (files fs))) fs,
     Some (createProfile doc)).
Proof using Type.
  intros path Hbak Hdoc Hub Hup Hlp Hlb. unfold load. fold path.
  pose proof (backup_path_ne path) as Hne.
  assert (restoreBackupIfFound fs path (path +:+ BACKUP_EXT)
          = setFiles (<[path := content]> (files fs)) fs) as ->.
  { unfold restoreBackupIfFound, QFile_exists, parseFile.
    rewrite Hbak, Hub, Hdoc. unfold QFile_remove, QFile_exists. rewrite Hlp.
    destruct (files fs !! path) as [old|] eqn:Hold; simpl.
    - unfold QFile_copy, QFile_exists, isUnreadable, isLocked in *; simpl.
      rewrite lookup_delete_ne, Hbak, Hub, lookup_delete_eq, Hlp by done.
      simpl. unfold setFiles; simpl. f_equal. by rewrite insert_delete_eq.
    - unfold QFile_copy, QFile_exists. rewrite Hbak, Hub, Hold, Hlp. done. }
  unfold parseFile, QFile_exists, QFile_remove, QFile_exists,
    isUnreadable, isLocked in *; simpl.
  rewrite lookup_insert_eq, Hup, Hdoc, lookup_insert_ne, Hbak, Hlb by done.
  simpl. unfold setFiles; simpl. f_equal. f_equal.
  by rewrite delete_insert_ne.
Qed.

(** X3. A backup that does not parse is garbage: [load] deletes it and reads
    the profile file as it is. *)
Theorem load_drops_garbage_backup (fs : FileSystem) (aName aType : string) :
  let path := findProfileFile fs aName aType in
  QFile_exists fs (path +:+ BACKUP_EXT) = true →
  parseFile fs (path +:+ BACKUP_EXT) = None →
  isLocked fs (path +:+ BACKUP_EXT) = false →
  load fs aName aType =
    (setFiles (delete (path +:+ BACKUP_EXT) (files fs)) fs,
     createProfile <$> parseFile fs path).
Proof using Type.
  intros path Hbak Hparse Hlb. unfold load. fold path.
  pose proof (backup_path_ne path) as Hne.
  assert (restoreBackupIfFound fs path (path +:+ BACKUP_EXT)
          = setFiles (delete (path +:+ BACKUP_EXT) (files fs)) fs) as ->.
  { unfold restoreBackupIfFound. rewrite Hbak, Hparse.
    unfold QFile_remove. by rewrite Hbak, Hlb. }
  assert (parseFile (setFiles (delete (path +:+ BACKUP_EXT) (files fs)) fs) path
          = parseFile fs path) as ->.
  { unfold parseFile, isUnreadable; simpl. by rewrite lookup_delete_ne. }
  destruct (parseFile fs path); [|done]. simpl.
  unfold QFile_exists; simpl. by rewrite lookup_delete_eq.
Qed.

(** *** [save] *)

Lemma saveBackup_other (fs : FileSystem) (aProfile : Profile) (path : string) :
  path ≠ profileFilePath iPrimaryPath (type aProfile) (name aProfile)
         +:+ BACKUP_EXT →
  files (saveBackup fs aProfile) !! path = files fs !! path.
Proof using Type.
  intros Hne. unfold saveBackup, createBackup.
  destruct (QFile_exists fs _); [|done]. by rewrite QFile_copy_other.
Qed.

Lemma saveBackup_locked (fs : FileSystem) (aProfile : Profile) :
  locked (saveBackup fs aProfile) = locked fs
  ∧ unreadable (saveBackup fs aProfile) = unreadable fs.
Proof using Type.
  unfold saveBackup, createBackup.
  destruct (QFile_exists fs _); [|done]. apply QFile_copy_locked.
Qed.

Lemma save_unfold (fs : FileSystem) (aProfile : Profile) (doc : QDomElement) :
  let profilePath :=
    profileFilePath iPrimaryPath (type aProfile) (name aProfile) in
  toXml aProfile = Some doc →
  isLocked fs profilePath = false →
  save fs aProfile =
    ((QFile_remove
        (setFiles (<[profilePath := toString doc]> (files (saveBackup fs aProfile)))
                  (saveBackup fs aProfile))
        (profilePath +:+ BACKUP_EXT)).1, true).
Proof using Type.
  intros profilePath Hdoc Hlock. unfold save, constructProfileDocument.
  rewrite Hdoc. unfold writeProfileFile, QFile_write. fold profilePath.
  unfold isLocked in *. destruct (saveBackup_locked fs aProfile) as [-> _].
  by rewrite Hlock.
Qed.

Lemma save_locked (fs : FileSystem) (aProfile : Profile) :
  locked (save fs aProfile).1 = locked fs
  ∧ unreadable (save fs aProfile).1 = unreadable fs.
Proof using Type.
  unfold save, constructProfileDocument.
  destruct (toXml aProfile) as [doc|]; [|done].
  unfold writeProfileFile, QFile_write.
  destruct (isLocked (saveBackup fs aProfile) _); simpl.
  - apply saveBackup_locked.
  - destruct (QFile_remove_locked
                (setFiles (<[profileFilePath iPrimaryPath (type aProfile)
                               (name aProfile) := toString doc]>
                             (files (saveBackup fs aProfile)))
                          (saveBackup fs aProfile))
                (profileFilePath iPrimaryPath (type aProfile) (name aProfile)
                   +:+ BACKUP_EXT)) as [-> ->].
    simpl. apply saveBackup_locked.
Qed.

(** What a successful [save] leaves at the target and at the backup
    path. *)
Lemma save_files (fs : FileSystem) (aProfile : Profile) (doc : QDomElement) :
  let profilePath :=
    profileFilePath iPrimaryPath (type aProfile) (name aProfile) in
  toXml aProfile = Some doc →
  isLocked fs profilePath = false →
  (save fs aProfile).2 = true
  ∧ files (save fs aProfile).1 !! profilePath = Some (toString doc)
  ∧ (isLocked fs (profilePath +:+ BACKUP_EXT) = false →
     files (save fs aProfile).1 !! (profilePath +:+ BACKUP_EXT) = None).
Proof using Type.
  intros profilePath Hdoc Hlock. rewrite (save_unfold _ _ doc) by done.
  fold profilePath. simpl. split; [done|]. split.
  - rewrite QFile_remove_other by (symmetry; apply backup_path_ne).
    simpl. by rewrite lookup_insert_eq.
  - intros Hlb. unfold QFile_remove, QFile_exists, isLocked in *; simpl.
    destruct (saveBackup_locked fs aProfile) as [-> _]. rewrite Hlb.
    destruct (<[profilePath:=toString doc]> (files (saveBackup fs aProfile))
                !! (profilePath +:+ BACKUP_EXT)) eqn:Hb; simpl; [|done].
    by rewrite lookup_delete_eq.
Qed.

(** X5. [save] succeeds exactly when the profile converts to XML and the
    target file can be written; whether the backup could be made plays no
    role.  After a success the target holds the serialisation, and the
    backup is gone unless it cannot be removed. *)
Theorem save_written (fs : FileSystem) (aProfile : Profile) :
  let profilePath :=
    profileFilePath iPrimaryPath (type aProfile) (name aProfile) in
  ((save fs aProfile).2 = true ↔
   is_Some (toXml aProfile) ∧ isLocked fs profilePath = false)
  ∧ ∀ doc, toXml aProfile = Some doc → isLocked fs profilePath = false →
      files (save fs aProfile).1 !! profilePath = Some (toString doc)
      ∧ (isLocked fs (profilePath +:+ BACKUP_EXT) = false →
         files (save fs aProfile).1 !! (profilePath +:+ BACKUP_EXT) = None).
Proof using Type.
  intros profilePath. split.
  - split.
    + unfold save, constructProfileDocument.
      destruct (toXml aProfile) as [doc|]; [|done].
      unfold writeProfileFile, QFile_write. fold profilePath.
      unfold isLocked. destruct (saveBackup_locked fs aProfile) as [-> _].
      destruct (bool_decide (profilePath ∈ locked fs)); [done|]. by eauto.
    + intros [[doc Hdoc] Hlock]. by apply (save_files fs aProfile doc).
  - intros doc Hdoc Hlock. by apply (save_files fs aProfile doc).
Qed.

(** X6. [save] writes the primary profile file and its backup, and no other
    file; when it fails, the profile file is as it was. *)
Theorem save_frame (fs : FileSystem) (aProfile : Profile) :
  let profilePath :=
    profileFilePath iPrimaryPath (type aProfile) (name aProfile) in
  (∀ path, path ≠ profilePath → path ≠ profilePath +:+ BACKUP_EXT →
     files (save fs aProfile).1 !! path = files fs !! path)
  ∧ ((save fs aProfile).2 = false →
     files (save fs aProfile).1 !! profilePath = files fs !! profilePath).
Proof using Type.
  intros profilePath.
  assert (profilePath ≠ profilePath +:+ BACKUP_EXT) as Hpb
    by (symmetry; apply backup_path_ne).
  unfold save, constructProfileDocument.
  destruct (toXml aProfile) as [doc|]; [|done].
  unfold writeProfileFile, QFile_write. fold profilePath.
  destruct (isLocked (saveBackup fs aProfile) profilePath); simpl.
  - split; [|intros _]; intros; by rewrite saveBackup_other.
  - split; [|done]. intros path Hp Hb.
    rewrite QFile_remove_other by done. simpl.
    by rewrite lookup_insert_ne, saveBackup_other.
Qed.

(** X7. Round trip: after a successful [save], [load] by the name and type of
    the profile resolves to the primary file, parses the text that was
    written and leaves the file system alone. *)
Theorem save_then_load (fs : FileSystem) (aProfile : Profile)
    (doc : QDomElement) :
  let profilePath :=
    profileFilePath iPrimaryPath (type aProfile) (name aProfile) in
  toXml aProfile = Some doc →
  isLocked fs profilePath = false →
  isLocked fs (profilePath +:+ BACKUP_EXT) = false →
  isUnreadable fs profilePath = false →
  (save fs aProfile).2 = true
  ∧ load (save fs aProfile).1 (name aProfile) (type aProfile) =
      ((save fs aProfile).1, createProfile <$> setContent (toString doc)).
Proof using Type.
  intros profilePath Hdoc Hlock Hlb Hur.
  destruct (save_files fs aProfile doc Hdoc Hlock) as (Hok & Hfile & Hbak).
  specialize (Hbak Hlb). fold profilePath in Hfile, Hbak.
  split; [done|].
  destruct (save_locked fs aProfile) as [_ Hunread].
  set (fs' := (save fs aProfile).1) in *.
  assert (findProfileFile fs' (name aProfile) (type aProfile) = profilePath)
    as Hfind.
  { unfold findProfileFile.
    fold (profileFilePath iPrimaryPath (type aProfile) (name aProfile)).
    fold profilePath. unfold QFile_exists at 1. by rewrite Hfile. }
  rewrite load_no_backup; rewrite Hfind.
  - f_equal. unfold parseFile, isUnreadable in *.
    by rewrite Hfile, Hunread, Hur.
  - by apply QFile_exists_false.
Qed.

(** *** [rename] and [remove] *)

Lemma QFile_rename_true (fs fs' : FileSystem) (src dst : string) :
  QFile_rename fs src dst = (fs', true) →
  ∃ content, files fs !! src = Some content ∧ files fs !! dst = None
             ∧ isLocked fs src = false ∧ isLocked fs dst = false
             ∧ fs' = setFiles (<[dst := content]> (delete src (files fs))) fs.
Proof using Type.
  unfold QFile_rename. destruct (files fs !! src) as [content|]; [|done].
  destruct (QFile_exists fs dst) eqn:Hd; simpl; [done|].
  destruct (isLocked fs src) eqn:Hls; simpl; [done|].
  destruct (isLocked fs dst) eqn:Hld; simpl; [done|].
  intros [= <-]. exists content. by apply QFile_exists_false in Hd.
Qed.

Lemma QFile_rename_false (fs : FileSystem) (src dst : string) :
  (QFile_rename fs src dst).2 = false → (QFile_rename fs src dst).1 = fs.
Proof using Type.
  unfold QFile_rename. destruct (files fs !! src); [|done].
  by destruct (_ || _).
Qed.

(** Renaming back undoes a rename. *)
Lemma QFile_rename_undo (fs fs' : FileSystem) (src dst : string) :
  QFile_rename fs src dst = (fs', true) →
  QFile_rename fs' dst src = (fs, true).
Proof using Type.
  intros (content & Hsrc & Hdst & Hls & Hld & ->)%QFile_rename_true.
  assert (src ≠ dst) as Hne by congruence.
  unfold QFile_rename, QFile_exists, isLocked in *; simpl.
  rewrite lookup_insert_eq, lookup_insert_ne, lookup_delete_eq, Hls, Hld
    by done.
  simpl. f_equal. destruct fs as [m lk ur]; unfold setFiles; simpl in *.
  f_equal. apply map_eq. intros k.
  destruct (decide (k = src)) as [->|Hks]; [by rewrite lookup_insert_eq|].
  rewrite lookup_insert_ne by done.
  destruct (decide (k = dst)) as [->|Hkd]; [by rewrite lookup_delete_eq|].
  by rewrite lookup_delete_ne, lookup_insert_ne, lookup_delete_ne.
Qed.

(** X8. [rename] is all or nothing: when it returns false, the file system is
    as it was, whichever of the two renames failed. *)
Theorem rename_all_or_nothing (fs : FileSystem) (aName aNewName : string) :
  (rename fs aName aNewName).2 = false → (rename fs aName aNewName).1 = fs.
Proof using Type.
  unfold rename.
  destruct (QFile_rename fs _ _) as [fs1 ret] eqn:Hfirst.
  destruct ret; simpl.
  - destruct (QFile_rename fs1 (logFilePath TYPE_SYNC aName) _)
      as [fs2 ret2] eqn:Hsecond.
    destruct ret2; simpl; [done|]. intros _.
    pose proof (QFile_rename_false fs1 (logFilePath TYPE_SYNC aName)
                  (logFilePath TYPE_SYNC aNewName)) as Hsame.
    rewrite Hsecond in Hsame. simpl in Hsame. rewrite Hsame by done.
    by rewrite (QFile_rename_undo _ _ _ _ Hfirst).
  - intros _. pose proof (QFile_rename_false fs _ _
                            ltac:(by rewrite Hfirst)) as Hsame.
    by rewrite Hfirst in Hsame.
Qed.

(** X9. A successful [rename] moves the profile file and the log file with
    their contents and touches nothing else.  (Names are file names,
    without separator.) *)
Theorem rename_moves (fs fs' : FileSystem) (aName aNewName : string) :
  hasSeparator aName = false →
  hasSeparator aNewName = false →
  rename fs aName aNewName = (fs', true) →
  files fs' !! profileFilePath iPrimaryPath TYPE_SYNC aNewName
    = files fs !! profileFilePath iPrimaryPath TYPE_SYNC aName
  ∧ files fs' !! logFilePath TYPE_SYNC aNewName
    = files fs !! logFilePath TYPE_SYNC aName
  ∧ is_Some (files fs !! profileFilePath iPrimaryPath TYPE_SYNC aName)
  ∧ is_Some (files fs !! logFilePath TYPE_SYNC aName)
  ∧ files fs' !! profileFilePath iPrimaryPath TYPE_SYNC aName = None
  ∧ files fs' !! logFilePath TYPE_SYNC aName = None
  ∧ ∀ path,
      path ≠ profileFilePath iPrimaryPath TYPE_SYNC aName →
      path ≠ profileFilePath iPrimaryPath TYPE_SYNC aNewName →
      path ≠ logFilePath TYPE_SYNC aName →
      path ≠ logFilePath TYPE_SYNC aNewName →
      files fs' !! path = files fs !! path.
Proof using Type.
  intros Hsa Hsb. unfold rename.
  set (source := profileFilePath iPrimaryPath TYPE_SYNC aName).
  set (destination := profileFilePath iPrimaryPath TYPE_SYNC aNewName).
  set (sourceLog := logFilePath TYPE_SYNC aName).
  set (destinationLog := logFilePath TYPE_SYNC aNewName).
  assert (source ≠ sourceLog) as H1 by by apply profile_path_ne_log_path.
  assert (source ≠ destinationLog) as H2 by by apply profile_path_ne_log_path.
  assert (destination ≠ sourceLog) as H3 by by apply profile_path_ne_log_path.
  assert (destination ≠ destinationLog) as H4
    by by apply profile_path_ne_log_path.
  destruct (QFile_rename fs source destination) as [fs1 ret] eqn:Hfirst.
  destruct ret; [|done].
  destruct (QFile_rename fs1 sourceLog destinationLog) as [fs2 ret2] eqn:Hsecond.
  destruct ret2; simpl; [|done]. intros [= <-].
  apply QFile_rename_true in Hfirst as (c & Hsrc & Hdst & _ & _ & ->).
  apply QFile_rename_true in Hsecond as (l & Hslog & Hdlog & _ & _ & ->).
  simpl in *.
  rewrite lookup_insert_ne, lookup_delete_ne in Hslog by done.
  assert (source ≠ destination) as H5 by congruence.
  assert (sourceLog ≠ destinationLog) as H6.
  { intros Heq. rewrite Heq in Hslog.
    rewrite lookup_insert_ne, lookup_delete_ne in Hdlog by done. congruence. }
  repeat split.
  - by rewrite lookup_insert_ne, lookup_delete_ne, lookup_insert_eq, Hsrc.
  - by rewrite lookup_insert_eq, Hslog.
  - by eexists.
  - by eexists.
  - by rewrite lookup_insert_ne, lookup_delete_ne, lookup_insert_ne,
      lookup_delete_eq.
  - by rewrite lookup_insert_ne, lookup_delete_eq.
  - intros path Hp1 Hp2 Hp3 Hp4.
    by rewrite lookup_insert_ne, lookup_delete_ne, lookup_insert_ne,
      lookup_delete_ne.
Qed.

Lemma QFile_remove_true (fs fs' : FileSystem) (path : string) :
  QFile_remove fs path = (fs', true) →
  is_Some (files fs !! path) ∧ fs' = setFiles (delete path (files fs)) fs.
Proof using Type.
  unfold QFile_remove. destruct (QFile_exists fs path) eqn:He; simpl; [|done].
  destruct (negb (isLocked fs path)); [|done].
  intros [= <-]. split; [by apply QFile_exists_true | done].
Qed.

(** X10. When [remove] returns true, the profile that was loaded is not
    protected, and neither the primary profile file nor the log file is
    there any more. *)
Theorem remove_deletes (fs fs' : FileSystem) (aName aType : string) :
  remove fs aName aType = (fs', true) →
  (∃ P, (load fs aName aType).2 = Some P ∧ isProtected P = false)
  ∧ QFile_exists fs' (profileFilePath iPrimaryPath aType aName) = false
  ∧ QFile_exists fs' (logFilePath aType aName) = false.
Proof using Type.
  unfold remove. destruct (load fs aName aType) as [fs1 [P|]]; [|done].
  destruct (isProtected P) eqn:Hprot; [done|]. simpl.
  destruct (QFile_remove fs1 _) as [fs2 success] eqn:Hfile.
  destruct success; [|done]. intros Hlog.
  apply QFile_remove_true in Hfile as [_ ->].
  apply QFile_remove_true in Hlog as [_ ->].
  split; [by eauto|]. unfold QFile_exists; simpl. split.
  - destruct (decide (logFilePath aType aName
                      = profileFilePath iPrimaryPath aType aName)) as [->|Hne].
    + by rewrite lookup_delete_eq.
    + by rewrite lookup_delete_ne, lookup_delete_eq.
  - by rewrite lookup_delete_eq.
Qed.

(** X11. A profile without a file under the primary root cannot be removed,
    be it unknown or a default of the secondary root: [remove] returns false
    and, without a pending backup, changes nothing. *)
Theorem remove_needs_primary_file (fs : FileSystem) (aName aType : string) :
  QFile_exists fs (profileFilePath iPrimaryPath aType aName) = false →
  QFile_exists fs (findProfileFile fs aName aType +:+ BACKUP_EXT) = false →
  remove fs aName aType = (fs, false).
Proof using Type.
  intros Hprimary Hbak. unfold remove. rewrite load_no_backup by done.
  destruct (createProfile <$> parseFile fs _) as [P|]; [|done].
  destruct (isProtected P); [done|]. simpl.
  unfold QFile_remove. by rewrite Hprimary.
Qed.

(** *** The queries *)

(** The [foreach] with [break] of [matchProfile] is an existential. *)
Lemma matchAnySubProfile_spec (aProfile : Profile) (aCriteria : SearchCriteria)
    (names : list string) :
  matchAnySubProfile aProfile aCriteria names = true ↔
  ∃ n sub, n ∈ names
           ∧ subProfile aProfile n (iSubProfileType aCriteria) = Some sub
           ∧ matchKey sub aCriteria = true.
Proof using Type.
  induction names as [|n names IH]; simpl.
  - split; [done|]. intros (n & sub & Hn & _). by apply elem_of_nil in Hn.
  - destruct (subProfile aProfile n (iSubProfileType aCriteria)) as [sub|] eqn:Hs.
    + destruct (matchKey sub aCriteria) eqn:Hm.
      * split; [|done]. intros _. exists n, sub. split; [by left | done].
      * rewrite IH. split.
        -- intros (n' & sub' & Hn' & Hs' & Hm'). exists n', sub'.
           split; [by right | done].
        -- intros (n' & sub' & [->|Hn']%elem_of_cons & Hs' & Hm');
             [congruence|]. by exists n', sub'.
    + rewrite IH. split.
      * intros (n' & sub' & Hn' & Hs' & Hm'). exists n', sub'.
        split; [by right | done].
      * intros (n' & sub' & [->|Hn']%elem_of_cons & Hs' & Hm');
          [congruence|]. by exists n', sub'.
Qed.

Lemma isEmpty_false (s : string) : isEmpty s = false ↔ s ≠ "".
Proof using Type. unfold isEmpty. apply String.eqb_neq. Qed.

(** Whatever the four-string query accepts, the criterion accepts. *)
Lemma matchesData_matchProfile (aProfile : Profile)
    (aSubProfileName aSubProfileType aKey aValue : string) :
  matchesData aProfile aSubProfileName aSubProfileType aKey aValue = true →
  matchProfile aProfile
    (criterionFor aSubProfileName aSubProfileType aKey aValue) = true.
Proof using Type.
  unfold matchesData, selectTestProfile, matchProfile, criterionFor; simpl.
  assert (Hkey : ∀ testProfile,
    (if negb (isEmpty aKey)
     then match key testProfile aKey with
          | Some value =>
              if negb (isEmpty aValue) && negb (String.eqb value aValue)
              then false else true
          | None => false
          end
     else true) = true →
    matchKey testProfile
      (mkCriteria (if isEmpty aValue then EXISTS else EQUAL)
                  aSubProfileName aSubProfileType aKey aValue) = true).
  { intros testProfile. unfold matchKey; simpl.
    destruct (isEmpty aKey); simpl; [by destruct (isEmpty aValue)|].
    destruct (key testProfile aKey) as [value|];
      destruct (isEmpty aValue); simpl; try done.
    by destruct (String.eqb value aValue). }
  destruct (isEmpty aSubProfileName); simpl.
  - destruct (isEmpty aSubProfileType); simpl; [apply Hkey|].
    destruct (subProfileNames aProfile aSubProfileType) as [|first rest] eqn:Hn;
      [done|].
    destruct (subProfile aProfile first aSubProfileType) as [sub|] eqn:Hs;
      [|done].
    intros Hm. apply matchAnySubProfile_spec. exists first, sub.
    split; [by left|]. split; [done | by apply Hkey].
  - destruct (subProfile aProfile aSubProfileName aSubProfileType); [|done].
    apply Hkey.
Qed.

(** With a sub-profile name, or without sub-profile type, the two agree. *)
Lemma matchesData_matchProfile_eq (aProfile : Profile)
    (aSubProfileName aSubProfileType aKey aValue : string) :
  aSubProfileName ≠ "" ∨ aSubProfileType = "" →
  matchesData aProfile aSubProfileName aSubProfileType aKey aValue =
  matchProfile aProfile
    (criterionFor aSubProfileName aSubProfileType aKey aValue).
Proof using Type.
  intros Hsel.
  unfold matchesData, selectTestProfile, matchProfile, criterionFor; simpl.
  assert (Hkey : ∀ testProfile,
    (if negb (isEmpty aKey)
     then match key testProfile aKey with
          | Some value =>
              if negb (isEmpty aValue) && negb (String.eqb value aValue)
              then false else true
          | None => false
          end
     else true) =
    matchKey testProfile
      (mkCriteria (if isEmpty aValue then EXISTS else EQUAL)
                  aSubProfileName aSubProfileType aKey aValue)).
  { intros testProfile. unfold matchKey; simpl.
    destruct (isEmpty aKey); simpl; [by destruct (isEmpty aValue)|].
    destruct (key testProfile aKey) as [value|];
      destruct (isEmpty aValue); simpl; try done.
    by destruct (String.eqb value aValue). }
  destruct (isEmpty aSubProfileName) eqn:Hn; simpl.
  - destruct Hsel as [Hsel| ->]; [by apply isEmpty_true in Hn|].
    simpl. apply Hkey.
  - destruct (subProfile aProfile aSubProfileName aSubProfileType);
      [apply Hkey | by destruct (isEmpty aValue)].
Qed.

Lemma selectByData_spec (allProfiles : list SyncProfile)
    (aSubProfileName aSubProfileType aKey aValue : string) (P : SyncProfile) :
  P ∈ selectByData allProfiles aSubProfileName aSubProfileType aKey aValue ↔
  P ∈ allProfiles
  ∧ matchesData (base P) aSubProfileName aSubProfileType aKey aValue = true.
Proof using Type.
  induction allProfiles as [|q rest IH]; simpl.
  - split; [intros H; by apply elem_of_nil in H|].
    intros [H _]. by apply elem_of_nil in H.
  - destruct (matchesData (base q) _ _ _ _) eqn:Hq.
    + rewrite !elem_of_cons, IH. split.
      * intros [->|[? ?]]; auto.
      * intros [[->|?] ?]; auto.
    + rewrite elem_of_cons, IH. split.
      * intros [? ?]; auto.
      * intros [[->|?] Hm]; [congruence|auto].
Qed.

(** X12. The four-string [getSyncProfilesByData] never returns a profile that
    the criteria form rejects for the corresponding criterion (EXISTS
    without value, EQUAL with one); the two return the same list when a
    sub-profile name is given or no sub-profile type is given.  (With a type
    alone, the four-string form tests the first sub-profile of the type
    only, the criteria form all of them.) *)
Theorem getSyncProfilesByDataFor_criteria (fs : FileSystem)
    (aSubProfileName aSubProfileType aKey aValue : string) :
  (∀ P, P ∈ (getSyncProfilesByDataFor fs aSubProfileName aSubProfileType
               aKey aValue).2 →
        P ∈ (getSyncProfilesByData fs
               [criterionFor aSubProfileName aSubProfileType aKey aValue]).2)
  ∧ (aSubProfileName ≠ "" ∨ aSubProfileType = "" →
     getSyncProfilesByDataFor fs aSubProfileName aSubProfileType aKey aValue
     = getSyncProfilesByData fs
         [criterionFor aSubProfileName aSubProfileType aKey aValue]).
Proof using Type.
  unfold getSyncProfilesByDataFor, getSyncProfilesByData.
  destruct (allSyncProfiles fs) as [fs' allProfiles]; simpl. split.
  - intros P. rewrite selectByData_spec, selectMatching_spec.
    intros [Hin Hm]. split; [done|]. simpl.
    by rewrite (matchesData_matchProfile _ _ _ _ _ Hm).
  - intros Hsel. f_equal.
    induction allProfiles as [|q rest IH]; simpl; [done|].
    rewrite (matchesData_matchProfile_eq _ _ _ _ _ Hsel), IH.
    by destruct (matchProfile (base q) _).
Qed.

Lemma matchProfile_profileEnabled (aProfile : Profile) :
  matchProfile aProfile profileEnabled = true ↔
  key aProfile KEY_ENABLED ≠ Some BOOLEAN_FALSE.
Proof using Type.
  unfold matchProfile, matchKey, profileEnabled; simpl.
  destruct (key aProfile KEY_ENABLED) as [v|]; [|done].
  rewrite negb_true_iff, String.eqb_neq. split; congruence.
Qed.

Lemma matchProfile_profileVisible (aProfile : Profile) :
  matchProfile aProfile profileVisible = true ↔ isHidden aProfile = false.
Proof using Type.
  unfold matchProfile, matchKey, profileVisible, isHidden; simpl.
  rewrite bool_decide_eq_false.
  destruct (key aProfile KEY_HIDDEN) as [v|]; [|done].
  rewrite negb_true_iff, String.eqb_neq. split; congruence.
Qed.

Lemma matchProfile_onlineService (aProfile : Profile) :
  matchProfile aProfile onlineService = true ↔
  ∃ n sub, n ∈ subProfileNames aProfile TYPE_SERVICE
           ∧ subProfile aProfile n TYPE_SERVICE = Some sub
           ∧ key sub KEY_DESTINATION_TYPE = Some VALUE_ONLINE.
Proof using Type.
  assert (Hkey : ∀ sub, matchKey sub onlineService = true ↔
                        key sub KEY_DESTINATION_TYPE = Some VALUE_ONLINE).
  { intros sub. unfold matchKey, onlineService; simpl.
    destruct (key sub KEY_DESTINATION_TYPE) as [v|]; [|done].
    rewrite String.eqb_eq. split; congruence. }
  unfold matchProfile. simpl.
  destruct (subProfileNames aProfile TYPE_SERVICE) as [|n0 names] eqn:Hnames.
  - simpl. split; [done|]. intros (n & _ & Hn & _). by apply elem_of_nil in Hn.
  - rewrite matchAnySubProfile_spec. simpl.
    split; intros (n & sub & Hn & Hs & Hm); exists n, sub;
      (split; [done|]; split; [done|]); by apply Hkey.
Qed.

Lemma matchProfile_storageSupported (aProfile : Profile) (aStorageName : string)
    (aStorageMustBeEnabled : bool) :
  aStorageName ≠ "" →
  matchProfile aProfile (storageSupported aStorageName aStorageMustBeEnabled)
    = true ↔
  ∃ storage, subProfile aProfile aStorageName TYPE_STORAGE = Some storage
             ∧ (aStorageMustBeEnabled = true →
                key storage KEY_ENABLED = Some BOOLEAN_TRUE).
Proof using Type.
  intros Hname. apply isEmpty_false in Hname.
  unfold matchProfile, storageSupported.
  destruct aStorageMustBeEnabled; simpl; rewrite Hname; simpl.
  - destruct (subProfile aProfile aStorageName TYPE_STORAGE) as [storage|].
    + unfold matchKey; simpl.
      destruct (key storage KEY_ENABLED) as [v|] eqn:Hv.
      * rewrite String.eqb_eq. split.
        -- intros ->. exists storage. by rewrite Hv.
        -- intros (s' & [= <-] & Hen). specialize (Hen eq_refl). congruence.
      * split; [done|]. intros (s' & [= <-] & Hen).
        specialize (Hen eq_refl). congruence.
    + split; [done|]. by intros (? & ? & _).
  - destruct (subProfile aProfile aStorageName TYPE_STORAGE) as [storage|].
    + split; [|done]. intros _. by exists storage.
    + split; [done|]. by intros (? & ? & _).
Qed.

(** X13. [getSyncProfilesByStorage] returns exactly the sync profiles that are
    not disabled and not hidden, have a service sub-profile whose
    destination type is [online], and have the named storage sub-profile,
    with its [enabled] key set to [true] if that is required. *)
Theorem getSyncProfilesByStorage_spec (fs : FileSystem) (aStorageName : string)
    (aStorageMustBeEnabled : bool) (P : SyncProfile) :
  aStorageName ≠ "" →
  P ∈ (getSyncProfilesByStorage fs aStorageName aStorageMustBeEnabled).2 ↔
  P ∈ (allSyncProfiles fs).2
  ∧ key (base P) KEY_ENABLED ≠ Some BOOLEAN_FALSE
  ∧ isHidden (base P) = false
  ∧ (∃ n service, n ∈ subProfileNames (base P) TYPE_SERVICE
        ∧ subProfile (base P) n TYPE_SERVICE = Some service
        ∧ key service KEY_DESTINATION_TYPE = Some VALUE_ONLINE)
  ∧ (∃ storage, subProfile (base P) aStorageName TYPE_STORAGE = Some storage
        ∧ (aStorageMustBeEnabled = true →
           key storage KEY_ENABLED = Some BOOLEAN_TRUE)).
Proof using Type.
  intros Hname. unfold getSyncProfilesByStorage, getSyncProfilesByData.
  destruct (allSyncProfiles fs) as [fs' allProfiles]; simpl.
  rewrite selectMatching_spec, matchesAll_spec.
  rewrite <- Forall_forall, !Forall_cons, Forall_nil.
  rewrite matchProfile_profileEnabled, matchProfile_profileVisible,
    matchProfile_onlineService, (matchProfile_storageSupported _ _ _ Hname).
  clear. tauto.
Qed.

(** *** Logs and new profiles *)

(** X14. [saveLog] succeeds exactly when the log file can be written and the
    log converts to XML, and then the file holds the serialisation.  The
    file is truncated before the conversion: if the conversion fails on a
    writable file, the log on disk is replaced by an empty file.  No other
    file is touched. *)
Theorem saveLog_spec (fs : FileSystem) (aLog : SyncLog) :
  let fileName := logFilePath TYPE_SYNC (profileName aLog) in
  ((saveLog fs aLog).2 = true ↔
   isLocked fs fileName = false ∧ is_Some (logToXml aLog))
  ∧ (∀ root, isLocked fs fileName = false → logToXml aLog = Some root →
       files (saveLog fs aLog).1 !! fileName = Some (toString root))
  ∧ (isLocked fs fileName = false → logToXml aLog = None →
       files (saveLog fs aLog).1 !! fileName = Some "")
  ∧ (isLocked fs fileName = true → saveLog fs aLog = (fs, false))
  ∧ ∀ path, path ≠ fileName →
      files (saveLog fs aLog).1 !! path = files fs !! path.
Proof using Type.
  intros fileName. unfold saveLog. fold fileName.
  destruct (isLocked fs fileName); simpl.
  - split; [by split; [|intros [? _]]|]. do 3 (split; [done|]). done.
  - destruct (logToXml aLog) as [root|]; simpl.
    + split; [by split; eauto|]. split.
      * intros root' _ [= <-]. by rewrite lookup_insert_eq.
      * split; [done|]. split; [done|]. intros path Hne.
        by rewrite !lookup_insert_ne.
    + split; [split; [done|by intros [_ [? ?]]]|]. split; [done|].
      split; [intros _ _; by rewrite lookup_insert_eq|]. split; [done|].
      intros path Hne. by rewrite lookup_insert_ne.
Qed.

(** X16. [addProfile] returns the empty string and changes nothing when its
    argument is empty or does not parse.  Otherwise it returns the name of
    the parsed profile, whether or not [save] succeeded: when the profile
    cannot be converted nothing is written, and when the target can be
    written it holds the serialisation afterwards. *)
Theorem addProfile_spec (fs : FileSystem) (aProfileAsXml : string) :
  (aProfileAsXml = "" ∨ setContentNS aProfileAsXml = None →
   addProfile fs aProfileAsXml = (fs, ""))
  ∧ ∀ doc, aProfileAsXml ≠ "" → setContentNS aProfileAsXml = Some doc →
      let profile := createProfile doc in
      let target := profileFilePath iPrimaryPath (type profile) (name profile) in
      (addProfile fs aProfileAsXml).2 = name profile
      ∧ (toXml profile = None → (addProfile fs aProfileAsXml).1 = fs)
      ∧ (isLocked fs target = true →
         files (addProfile fs aProfileAsXml).1 !! target = files fs !! target)
      ∧ (∀ d, toXml profile = Some d → isLocked fs target = false →
           files (addProfile fs aProfileAsXml).1 !! target = Some (toString d)).
Proof using Type.
  unfold addProfile. split.
  - intros [->|Hparse]; [done|]. rewrite Hparse.
    by destruct (negb (isEmpty aProfileAsXml)).
  - intros doc Hne Hdoc. apply isEmpty_false in Hne.
    rewrite Hne, Hdoc. simpl. set (profile := createProfile doc).
    set (target := profileFilePath iPrimaryPath (type profile) (name profile)).
    split; [done|]. split; [|split].
    + intros Hxml. unfold save, constructProfileDocument. by rewrite Hxml.
    + intros Hlock. unfold save, constructProfileDocument.
      destruct (toXml profile) as [d|]; [|done].
      unfold writeProfileFile, QFile_write. fold target.
      assert (isLocked (saveBackup fs profile) target = true) as ->.
      { unfold isLocked in *.
        by destruct (saveBackup_locked fs profile) as [-> _]. }
      simpl. apply saveBackup_other. symmetry. apply backup_path_ne.
    + intros d Hd Hlock. by apply (save_files fs profile d).
Qed.

(** *** The pointers of a profile tree *)

Lemma map_fmap {A B} (f : A → B) (l : list A) : map f l = f <$> l.
Proof using Type. induction l as [|x l IH]; simpl; [done|]. by rewrite IH. Qed.

Lemma allSubPaths_unfold (p : Profile) :
  allSubPaths p = subPathsFrom allSubPaths 0 (iSubProfiles p).
Proof using Type. by destruct p. Qed.

Lemma subPathsFrom_cons (i : nat) (c : Profile) (cs : list Profile) :
  subPathsFrom allSubPaths i (c :: cs) =
    ([i] :: (cons i <$> allSubPaths c)) ++ subPathsFrom allSubPaths (S i) cs.
Proof using Type. by rewrite <- map_fmap. Qed.

Lemma elem_of_subPathsFrom (cs : list Profile) (i : nat) (π : Path) :
  π ∈ subPathsFrom allSubPaths i cs ↔
  ∃ j c π', π = (i + j) :: π' ∧ cs !! j = Some c
            ∧ (π' = [] ∨ π' ∈ allSubPaths c).
Proof using Type.
  revert i. induction cs as [|c cs IH]; intros i.
  - simpl. rewrite elem_of_nil. split; [done|]. by intros (j & d & π' & _ & ? & _).
  - rewrite subPathsFrom_cons, elem_of_app, elem_of_cons, list_elem_of_fmap, IH.
    split.
    + intros [[->|(π0 & -> & Hin)]|(j & d & π' & -> & Hd & Hπ')].
      * exists 0, c, []. rewrite Nat.add_0_r. by eauto.
      * exists 0, c, π0. rewrite Nat.add_0_r. by eauto.
      * exists (S j), d, π'. split; [f_equal; lia | by eauto].
    + intros (j & d & π' & -> & Hd & Hπ'). destruct j as [|j]; simpl in Hd.
      * injection Hd as ->. rewrite Nat.add_0_r. left.
        destruct Hπ' as [->|Hin]; [by left | right; by exists π'].
      * right. exists j, d, π'. split; [f_equal; lia | by eauto].
Qed.

(** [allSubPaths] holds exactly the pointers that refer to a sub-profile. *)
Lemma elem_of_allSubPaths (p : Profile) (π : Path) :
  π ∈ allSubPaths p ↔ π ≠ [] ∧ is_Some (nodeAt p π).
Proof using Type.
  revert p. induction π as [|k π IH]; intros p;
    rewrite allSubPaths_unfold, elem_of_subPathsFrom.
  - split; [by intros (j & c & π' & ? & _) | by intros [? _]].
  - simpl. split.
    + intros (j & c & π' & [= -> ->] & Hc & Hπ'). split; [done|]. rewrite Hc.
      destruct Hπ' as [->|Hin]; [by eexists | by apply IH in Hin as [_ ?]].
    + intros [_ Hsome].
      destruct (iSubProfiles p !! k) as [c|] eqn:Hc; [|by destruct Hsome].
      exists k, c, π. split; [done|]. split; [done|].
      destruct π as [|k' π]; [by left|]. right. by apply IH.
Qed.

Lemma NoDup_subPathsFrom (cs : list Profile) (i : nat) :
  Forall (λ c, NoDup (allSubPaths c)) cs →
  NoDup (subPathsFrom allSubPaths i cs).
Proof using Type.
  intros Hcs. revert i. induction Hcs as [|c cs Hc _ IH]; intros i.
  - constructor.
  - rewrite subPathsFrom_cons. apply NoDup_app. split; [|split].
    + apply NoDup_cons. split.
      * intros (π0 & [= <-] & Hin)%list_elem_of_fmap.
        by apply elem_of_allSubPaths in Hin as [? _].
      * apply NoDup_fmap_2; [|done]. by intros ?? [= ->].
    + intros π Hin (j & d & π' & -> & _)%elem_of_subPathsFrom.
      apply elem_of_cons in Hin as [Hin|(π0 & Hin & _)%list_elem_of_fmap];
        injection Hin; lia.
    + apply IH.
Qed.

Lemma NoDup_allSubPaths (p : Profile) : NoDup (allSubPaths p).
Proof using Type.
  induction p as [n t k f subs l IH] using Profile_tree_ind.
  rewrite allSubPaths_unfold. by apply NoDup_subPathsFrom.
Qed.

(** *** After the expansion every sub-profile is loaded *)

Lemma loadedAt_updateAt (f : Profile → Profile) (π σ : Path) (p : Profile) :
  (∀ v σ', loadedAt v σ' → loadedAt (f v) σ') →
  loadedAt p σ → loadedAt (updateAt π f p) σ.
Proof using Type.
  intros Hf. revert p σ. induction π as [|i π IH]; intros p σ; simpl; [auto|].
  destruct σ as [|j σ]; unfold loadedAt; simpl.
  { intros (v & [= <-] & Hl). by eexists. }
  destruct (decide (i = j)) as [->|Hij].
  - rewrite list_lookup_alter_eq.
    destruct (iSubProfiles p !! j) as [c|]; simpl; [apply IH|].
    by intros (? & ? & _).
  - by rewrite list_lookup_alter_ne.
Qed.

Lemma loadedAt_same (v w : Profile) (σ : Path) :
  iSubProfiles w = iSubProfiles v →
  (isLoaded v = true → isLoaded w = true) →
  loadedAt v σ → loadedAt w σ.
Proof using Type.
  intros Hsubs Hl. unfold loadedAt. destruct σ; simpl.
  - intros (? & [= <-] & ?). by eauto.
  - by rewrite Hsubs.
Qed.

Lemma loadedAt_appendSubProfile (c v : Profile) (σ : Path) :
  loadedAt v σ → loadedAt (appendSubProfile c v) σ.
Proof using Type.
  unfold loadedAt. destruct σ as [|j σ]; simpl.
  - intros (? & [= <-] & ?). by eauto.
  - destruct (iSubProfiles v !! j) as [d|] eqn:Hd; [|by intros (? & ? & _)].
    by rewrite (lookup_app_l_Some _ _ _ _ Hd).
Qed.

Lemma merge_loadedAt (root ext : Profile) (σ : Path) :
  loadedAt root σ → loadedAt (merge root ext) σ.
Proof using Type.
  unfold merge. destruct (locate _ _ root) as [π|]; [|done].
  intros Hσ.
  assert (loadedAt (updateAt π (overlay ext) root) σ) as Hσ0.
  { apply loadedAt_updateAt; [|done].
    intros v σ'. by apply loadedAt_same. }
  revert Hσ0. generalize (updateAt π (overlay ext) root).
  induction (iSubProfiles ext) as [|c cs IH]; intros r Hr; simpl; [done|].
  apply IH. unfold mergeSubProfile. destruct (isPresent r c); [done|].
  apply loadedAt_updateAt; [|done].
  intros v σ'. apply loadedAt_appendSubProfile.
Qed.

(** A visit never clears a loaded flag. *)
Lemma expandVisit_loadedAt (st : FileSystem * Profile) (sub σ : Path) :
  loadedAt st.2 σ → loadedAt (expandVisit st sub).2 σ.
Proof using Type.
  intros Hσ. unfold expandVisit.
  destruct (nodeAt st.2 sub) as [node|]; [|done].
  destruct (isLoaded node); simpl; [done|].
  destruct (profile st.1 (name node) (type node)) as [fs' loaded]; simpl.
  apply loadedAt_updateAt.
  - intros v σ'. by apply loadedAt_same.
  - destruct loaded; [by apply merge_loadedAt | done].
Qed.

(** A visit leaves the sub-profile it visits loaded. *)
Lemma expandVisit_marks (st : FileSystem * Profile) (sub : Path) :
  is_Some (nodeAt st.2 sub) → loadedAt (expandVisit st sub).2 sub.
Proof using Type.
  intros [node Hnode]. unfold expandVisit. rewrite Hnode.
  destruct (isLoaded node) eqn:Hl; simpl; [by exists node|].
  destruct (profile st.1 (name node) (type node)) as [fs' loaded]; simpl.
  assert (is_Some (nodeAt (match loaded with
                           | Some ext => merge st.2 ext
                           | None => st.2
                           end) sub)) as [w Hw].
  { destruct loaded; [apply merge_valid|]; by eexists. }
  exists (setLoaded true w). split; [by apply nodeAt_updateAt | done].
Qed.

Lemma fold_expandVisit_loadedAt (subs : list Path) (st : FileSystem * Profile)
    (σ : Path) :
  loadedAt st.2 σ → loadedAt (fold_left expandVisit subs st).2 σ.
Proof using Type.
  revert st. induction subs as [|sub subs IH]; intros st Hσ; simpl; [done|].
  by apply IH, expandVisit_loadedAt.
Qed.

Lemma fold_expandVisit_marks (subs : list Path) (st : FileSystem * Profile)
    (σ : Path) :
  σ ∈ subs → is_Some (nodeAt st.2 σ) →
  loadedAt (fold_left expandVisit subs st).2 σ.
Proof using Type.
  revert st. induction subs as [|sub subs IH]; intros st Hin Hσ; simpl.
  { by apply elem_of_nil in Hin. }
  apply elem_of_cons in Hin as [->|Hin].
  - by apply fold_expandVisit_loadedAt, expandVisit_marks.
  - apply IH; [done|]. by apply expandVisit_valid.
Qed.

(** A round that does not add an entry leaves every sub-profile loaded. *)
Lemma expand_round_all_loaded (fs : FileSystem) (aProfile : Profile) :
  let st := fold_left expandVisit (allSubPaths aProfile) (fs, aProfile) in
  subCount st.2 ≤ subCount aProfile →
  Forall (λ v, isLoaded v = true) (allSubProfiles st.2).
Proof using Type.
  intros st Hcount.
  assert (allSubPaths aProfile ≡ₚ allSubPaths st.2) as Hperm.
  { apply submseteq_length_Permutation; [|by rewrite !length_allSubPaths].
    apply NoDup_submseteq; [apply NoDup_allSubPaths|].
    intros π [Hne Hπ]%elem_of_allSubPaths. apply elem_of_allSubPaths.
    split; [done|]. by apply fold_expandVisit_valid. }
  apply Forall_forall. intros v [i Hi]%list_elem_of_lookup_1.
  destruct (Forall2_lookup_r _ _ _ _ _ (allSubPaths_nodes st.2) Hi)
    as (π & Hπ & Hv).
  apply list_elem_of_lookup_2 in Hπ. rewrite <- Hperm in Hπ.
  destruct (fold_expandVisit_marks (allSubPaths aProfile) (fs, aProfile) π Hπ)
    as (w & Hw & Hl).
  { by apply elem_of_allSubPaths in Hπ as [_ ?]. }
  fold st in Hw. congruence.
Qed.

Lemma expandLoop_all_loaded (fuel : nat) (fs : FileSystem) (aProfile : Profile)
    (prevSubCount : nat) (st : FileSystem * Profile) :
  (subCount aProfile ≤ prevSubCount →
   Forall (λ v, isLoaded v = true) (allSubProfiles aProfile)) →
  expandLoop fuel fs aProfile (allSubPaths aProfile) prevSubCount
             (length (allSubPaths aProfile)) = Some st →
  Forall (λ v, isLoaded v = true) (allSubProfiles st.2).
Proof using Type.
  revert fs aProfile prevSubCount.
  induction fuel as [|fuel IH]; intros fs aProfile prevSubCount Hinv;
    rewrite length_allSubPaths.
  - simpl. destruct (Nat.ltb_spec prevSubCount (subCount aProfile)); [done|].
    intros [= <-]. by apply Hinv.
  - rewrite expandLoop_S.
    destruct (Nat.ltb_spec prevSubCount (subCount aProfile)).
    + simpl. apply IH. intros Hle. by apply expand_round_all_loaded.
    + intros [= <-]. by apply Hinv.
Qed.

Lemma expand_subProfiles_loaded (fs : FileSystem) (aProfile : Profile) :
  isLoaded aProfile = false →
  Forall (λ v, isLoaded v = true) (allSubProfiles (expand fs aProfile).2).
Proof using Type.
  intros Hl. destruct (expand_unfold fs aProfile Hl) as (st & Hloop & ->).
  simpl. fold (nodesOf (iSubProfiles st.2)). rewrite <- allSubProfiles_unfold.
  eapply expandLoop_all_loaded; [|exact Hloop].
  intros Hle. unfold subCount in Hle.
  destruct (allSubProfiles aProfile); [constructor | simpl in Hle; lia].
Qed.

(** X17. The invariant of a loaded composite profile: after [expand] has run on
    a profile that was not yet marked as loaded, the profile and every
    sub-profile inside it are loaded. *)
Theorem expand_all_loaded (fs : FileSystem) (aProfile : Profile) :
  isLoaded aProfile = false →
  Forall (λ v, isLoaded v = true)
         ((expand fs aProfile).2 :: allSubProfiles (expand fs aProfile).2).
Proof using Type.
  intros Hl. constructor; [apply expand_isLoaded|].
  by apply expand_subProfiles_loaded.
Qed.

(** *** What [allSyncProfiles] returns *)

Lemma merge_profileId (root ext : Profile) :
  profileId (merge root ext) = profileId root.
Proof using Type.
  unfold merge. destruct (locate _ _ root) as [π|]; [|done].
  rewrite <- (updateAt_profileId (overlay ext) π root) by done.
  generalize (updateAt π (overlay ext) root).
  induction (iSubProfiles ext) as [|c cs IH]; intros r; simpl; [done|].
  rewrite IH. unfold mergeSubProfile. destruct (isPresent r c); [done|].
  by apply updateAt_profileId.
Qed.

Lemma expandVisit_profileId (st : FileSystem * Profile) (sub : Path) :
  profileId (expandVisit st sub).2 = profileId st.2.
Proof using Type.
  unfold expandVisit. destruct (nodeAt st.2 sub) as [node|]; [|done].
  destruct (isLoaded node); simpl; [done|].
  destruct (profile st.1 (name node) (type node)) as [fs' loaded]; simpl.
  rewrite updateAt_profileId by done.
  destruct loaded; [apply merge_profileId | done].
Qed.

Lemma expandLoop_profileId (fuel : nat) (fs : FileSystem) (aProfile : Profile)
    (subs : list Path) (prevSubCount subCount : nat)
    (st : FileSystem * Profile) :
  expandLoop fuel fs aProfile subs prevSubCount subCount = Some st →
  profileId st.2 = profileId aProfile.
Proof using Type.
  revert fs aProfile subs prevSubCount subCount.
  induction fuel as [|fuel IH]; intros fs aProfile subs prevSubCount subCount';
    simpl; destruct (prevSubCount <? subCount'); try done;
    try (by intros [= <-]).
  intros Hloop. rewrite (IH _ _ _ _ _ Hloop). clear Hloop IH.
  revert fs aProfile. induction subs as [|sub subs IH]; intros fs aProfile;
    simpl; [done|].
  destruct (expandVisit (fs, aProfile) sub) as [fs1 p1] eqn:Hvisit.
  rewrite IH. change p1 with (fs1, p1).2. rewrite <- Hvisit.
  apply expandVisit_profileId.
Qed.

(** The expander keeps the name and the type of the profile. *)
Lemma expand_profileId (fs : FileSystem) (aProfile : Profile) :
  profileId (expand fs aProfile).2 = profileId aProfile.
Proof using Type.
  unfold expand. destruct (isLoaded aProfile); [done|].
  destruct (expandLoop _ _ _ _ _ _) as [st|] eqn:Hloop; [|done].
  simpl. apply expandLoop_profileId in Hloop. by rewrite <- Hloop.
Qed.

Lemma parseFile_Some (fs : FileSystem) (aPath : string) (doc : QDomElement) :
  parseFile fs aPath = Some doc →
  ∃ content, files fs !! aPath = Some content ∧ setContent content = Some doc.
Proof using Type.
  unfold parseFile. destruct (files fs !! aPath) as [content|]; [|done].
  destruct (isUnreadable fs aPath); [done|]. by eauto.
Qed.

Lemma syncProfilesOf_elem (fs : FileSystem) (names : list string)
    (sp : SyncProfile) :
  sp ∈ (syncProfilesOf fs names).2 →
  ∃ fs0 n, n ∈ names ∧ (syncProfile fs0 n).2 = Some sp.
Proof using Type.
  revert fs. induction names as [|n names IH]; intros fs; simpl.
  { intros H. by apply elem_of_nil in H. }
  destruct (syncProfile fs n) as [fs1 p] eqn:Hp.
  destruct (syncProfilesOf fs1 names) as [fs2 profiles] eqn:Hrest. simpl.
  assert (sp ∈ profiles → ∃ fs0 n0, n0 ∈ n :: names
                                    ∧ (syncProfile fs0 n0).2 = Some sp) as Htail.
  { intros Hin. destruct (IH fs1) as (fs0 & n0 & Hn0 & Hsp).
    - by rewrite Hrest.
    - exists fs0, n0. split; [by right | done]. }
  destruct p as [sp0|]; [|done].
  intros [->|Hin]%elem_of_cons; [|by auto].
  exists fs, n. split; [by left | by rewrite Hp].
Qed.

(** X18. Every profile that [allSyncProfiles] returns has the declared type
    [sync], is marked as loaded and has a log attached.  If the factory
    builds profiles that are not yet loaded, every sub-profile inside the
    returned profile is loaded as well. *)
Theorem allSyncProfiles_invariant (fs : FileSystem) (sp : SyncProfile) :
  sp ∈ (allSyncProfiles fs).2 →
  type (base sp) = TYPE_SYNC
  ∧ isLoaded (base sp) = true
  ∧ is_Some (log sp)
  ∧ ((∀ text doc, setContent text = Some doc →
        isLoaded (createProfile doc) = false) →
     Forall (λ v, isLoaded v = true) (allSubProfiles (base sp))).
Proof using Type.
  intros (fs0 & n & _ & Hsp)%syncProfilesOf_elem. revert Hsp.
  unfold syncProfile, profile.
  destruct (load fs0 n TYPE_SYNC) as [fs1 [p|]] eqn:Hload; [|done].
  destruct (String.eqb_spec (type p) TYPE_SYNC) as [Htype|]; [|done].
  simpl. destruct (expand fs1 p) as [fs2 expanded] eqn:Hexp. simpl.
  intros [= <-]. simpl.
  assert (expanded = (expand fs1 p).2) as -> by by rewrite Hexp.
  split; [|split; [apply expand_isLoaded|split; [by eexists|]]].
  - pose proof (expand_profileId fs1 p) as Hid. unfold profileId in Hid.
    congruence.
  - intros Hfactory.
    apply load_Some_parseFile in Hload as (doc & Hparse & <-).
    apply parseFile_Some in Hparse as (content & _ & Hdoc).
    apply expand_subProfiles_loaded. by eapply Hfactory.
Qed.

(** *** Strings, again *)

Lemma append_nil_l (a : string) : "" +:+ a = a.
Proof using Type. done. Qed.

Lemma append_cons (x : ascii) (a b : string) :
  String x a +:+ b = String x (a +:+ b).
Proof using Type. done. Qed.

Lemma append_assoc (a b c : string) : (a +:+ b) +:+ c = a +:+ b +:+ c.
Proof using Type.
  induction a as [|x a IH]; [done|].
  change (String x ((a +:+ b) +:+ c) = String x (a +:+ b +:+ c)).
  by rewrite IH.
Qed.

Lemma append_empty_r (a : string) : a +:+ "" = a.
Proof using Type.
  induction a as [|x a IH]; [done|].
  change (String x (a +:+ "") = String x a). by rewrite IH.
Qed.

Lemma rev_app_append (a acc : string) :
  String.rev_app a acc = String.rev a +:+ acc.
Proof using Type.
  unfold String.rev. revert acc.
  induction a as [|x a IH]; intros acc; simpl; [done|].
  rewrite (IH (String x acc)), (IH (String x "")), append_assoc. done.
Qed.

Lemma rev_append (a b : string) :
  String.rev (a +:+ b) = String.rev b +:+ String.rev a.
Proof using Type.
  induction a as [|x a IH]; simpl.
  - by rewrite append_empty_r.
  - unfold String.rev at 1 3. simpl.
    by rewrite !rev_app_append, IH, append_assoc.
Qed.

Lemma rev_rev (a : string) : String.rev (String.rev a) = a.
Proof using Type.
  induction a as [|x a IH]; simpl; [done|].
  unfold String.rev at 2. simpl.
  rewrite rev_app_append, rev_append, IH. done.
Qed.

Lemma stripPrefix_Some (pre s r : string) :
  stripPrefix pre s = Some r ↔ s = pre +:+ r.
Proof using Type.
  revert s. induction pre as [|a pre IH]; intros s; simpl.
  - rewrite append_nil_l. split; congruence.
  - rewrite append_cons. destruct s as [|b s]; [done|].
    destruct (Ascii.eqb_spec a b) as [->|Hne].
    + rewrite IH. split; congruence.
    + split; [done | congruence].
Qed.

Lemma append_inj_r (a b suf : string) : a +:+ suf = b +:+ suf → a = b.
Proof using Type.
  intros Heq. apply (f_equal String.rev) in Heq.
  rewrite !rev_append in Heq. apply String.app_inj in Heq.
  apply (f_equal String.rev) in Heq. by rewrite !rev_rev in Heq.
Qed.

(** X19. The constructor strips one trailing separator, and only one: a root
    given with a trailing separator is the root without it, and a root that
    does not end with a separator is taken as it is. *)
Theorem chopSeparator_spec (root : string) :
  chopSeparator (root +:+ separator) = root
  ∧ ((∀ r, root ≠ r +:+ separator) → chopSeparator root = root).
Proof using Type.
  split.
  - induction root as [|c root IH]; [done|].
    change (String c root +:+ separator) with (String c (root +:+ separator)).
    destruct root as [|d root]; [done|].
    change (chopSeparator (String c (String d root +:+ separator)))
      with (String c (chopSeparator (String d root +:+ separator))).
    by rewrite IH.
  - induction root as [|c root IH]; intros Hend; [done|].
    destruct root as [|d root].
    + simpl. destruct (Ascii.eqb_spec c "/") as [->|]; [|done].
      by destruct (Hend "").
    + change (chopSeparator (String c (String d root)))
        with (String c (chopSeparator (String d root))).
      rewrite IH; [done|]. intros r Hr. apply (Hend (String c r)).
      simpl. by rewrite Hr.
Qed.

(** *** The names of the stored profiles *)

Lemma sameNoCase_empty_r (suf : string) :
  sameNoCase suf "" = true → suf = "".
Proof using Type. by destruct suf. Qed.

Lemma endsWithNoCase_spec (suf s : string) :
  endsWithNoCase suf s = true ↔
  ∃ r e, s = r +:+ e ∧ sameNoCase suf e = true.
Proof using Type.
  induction s as [|c s IH].
  - simpl. rewrite orb_false_r. split.
    + intros H. by exists "", "".
    + intros (r & e & Hs & He). destruct r; [|done].
      by rewrite append_nil_l in Hs; subst.
  - change (endsWithNoCase suf (String c s))
      with (sameNoCase suf (String c s) || endsWithNoCase suf s).
    rewrite orb_true_iff, IH. split.
    + intros [H|(r & e & -> & He)].
      * by exists "", (String c s).
      * by exists (String c r), e.
    + intros (r & e & Hs & He). destruct r as [|c' r].
      * left. rewrite append_nil_l in Hs. by subst.
      * right. rewrite append_cons in Hs. injection Hs as _ ->. by eauto.
Qed.

Lemma hasDot_app (a b : string) : hasDot (a +:+ b) = hasDot a || hasDot b.
Proof using Type.
  induction a as [|c a IH]; [done|].
  rewrite append_cons. simpl. by rewrite IH, orb_assoc.
Qed.

Lemma eqbNoCase_dot (c : ascii) : eqbNoCase "." c = true → c = "."%char.
Proof using Type.
  destruct c as [[] [] [] [] [] [] [] []]; vm_compute; intros H;
    first [reflexivity | discriminate H].
Qed.

Lemma eqbNoCase_letter (c : ascii) :
  eqbNoCase "x" c = true ∨ eqbNoCase "m" c = true ∨ eqbNoCase "l" c = true →
  Ascii.eqb c "." = false ∧ Ascii.eqb c "/" = false.
Proof using Type.
  destruct c as [[] [] [] [] [] [] [] []]; vm_compute; intros [H|[H|H]];
    first [discriminate H | split; reflexivity].
Qed.

(** What matches [.xml] in any case: a dot and three letters. *)
Lemma sameNoCase_FORMAT_EXT (e : string) :
  sameNoCase FORMAT_EXT e = true →
  hasSeparator e = false ∧ hasDot e = true ∧ isDotFile e = true
  ∧ completeBaseName e = "".
Proof using Type.
  unfold FORMAT_EXT.
  destruct e as [|c1 [|c2 [|c3 [|c4 [|c5 e]]]]]; simpl;
    rewrite ?andb_false_r; try done.
  rewrite !andb_true_iff.
  intros (->%eqbNoCase_dot & H2 & H3 & H4 & _).
  destruct (eqbNoCase_letter c2) as [D2 S2]; [by left|].
  destruct (eqbNoCase_letter c3) as [D3 S3]; [by right; left|].
  destruct (eqbNoCase_letter c4) as [D4 S4]; [by right; right|].
  by rewrite D2, D3, D4, S2, S3, S4.
Qed.

Lemma completeBaseName_app (n e : string) :
  sameNoCase FORMAT_EXT e = true → completeBaseName (n +:+ e) = n.
Proof using Type.
  intros (_ & Hdot & _ & Hbase)%sameNoCase_FORMAT_EXT.
  induction n as [|c n IH]; [done|].
  rewrite append_cons.
  change (completeBaseName (String c (n +:+ e)))
    with (if Ascii.eqb c "." && negb (hasDot (n +:+ e)) then ""
          else String c (completeBaseName (n +:+ e))).
  by rewrite hasDot_app, Hdot, orb_true_r, andb_false_r, IH.
Qed.

Lemma isDotFile_app (n e : string) :
  sameNoCase FORMAT_EXT e = true →
  isDotFile (n +:+ e) = isDotFile (n +:+ FORMAT_EXT).
Proof using Type.
  intros (_ & _ & Hdot & _)%sameNoCase_FORMAT_EXT.
  destruct n; [by rewrite append_nil_l|done].
Qed.

Lemma profileBaseName_Some (dir path n : string) :
  profileBaseName dir path = Some n ↔
  ∃ ext, sameNoCase FORMAT_EXT ext = true
         ∧ path = dir +:+ separator +:+ n +:+ ext
         ∧ hasSeparator n = false
         ∧ isDotFile (n +:+ FORMAT_EXT) = false.
Proof using Type.
  unfold profileBaseName. split.
  - destruct (stripPrefix _ path) as [fileName|] eqn:Hpre; [|done].
    apply stripPrefix_Some in Hpre.
    destruct (hasSeparator fileName) eqn:Hsep; simpl; [done|].
    destruct (isDotFile fileName) eqn:Hdot; [done|].
    destruct (endsWithNoCase FORMAT_EXT fileName) eqn:Hends; [|done].
    apply endsWithNoCase_spec in Hends as (r & e & -> & He).
    rewrite completeBaseName_app by done. intros [= <-].
    exists e. split; [done|].
    rewrite hasSeparator_app in Hsep. apply orb_false_iff in Hsep as [Hsep _].
    rewrite isDotFile_app in Hdot by done.
    by rewrite Hpre, append_assoc.
  - intros (e & He & -> & Hsep & Hdot).
    assert (stripPrefix (dir +:+ separator) (dir +:+ separator +:+ n +:+ e)
            = Some (n +:+ e)) as ->.
    { apply stripPrefix_Some. by rewrite append_assoc. }
    pose proof (sameNoCase_FORMAT_EXT e He) as (Hesep & _).
    rewrite hasSeparator_app, Hsep, Hesep, isDotFile_app, Hdot by done. simpl.
    assert (endsWithNoCase FORMAT_EXT (n +:+ e) = true) as ->
      by (apply endsWithNoCase_spec; by eauto).
    by rewrite completeBaseName_app.
Qed.

Lemma elem_of_entryBaseNames (fs : FileSystem) (dir n : string) :
  n ∈ entryBaseNames fs dir ↔
  hasSeparator n = false
  ∧ isDotFile (n +:+ FORMAT_EXT) = false
  ∧ ∃ ext, sameNoCase FORMAT_EXT ext = true
           ∧ QFile_exists fs (dir +:+ separator +:+ n +:+ ext) = true.
Proof using Type.
  unfold entryBaseNames. rewrite list_elem_of_omap. split.
  - intros ([path content] & Hin & Hn). simpl in Hn.
    apply profileBaseName_Some in Hn as (e & He & -> & ? & ?).
    apply elem_of_map_to_list in Hin.
    repeat (split; [done|]). exists e. split; [done|].
    apply QFile_exists_true. by eauto.
  - intros (? & ? & e & He & [content Hc]%QFile_exists_true).
    exists (dir +:+ separator +:+ n +:+ e, content).
    split; [by apply elem_of_map_to_list|].
    apply profileBaseName_Some. by eauto.
Qed.

(** A directory lists a base name once if it does not hold two files of
    that base name whose extensions differ in case. *)
Lemma NoDup_entryBaseNames (fs : FileSystem) (dir : string) :
  (∀ n e1 e2,
     sameNoCase FORMAT_EXT e1 = true → sameNoCase FORMAT_EXT e2 = true →
     QFile_exists fs (dir +:+ separator +:+ n +:+ e1) = true →
     QFile_exists fs (dir +:+ separator +:+ n +:+ e2) = true →
     e1 = e2) →
  NoDup (entryBaseNames fs dir).
Proof using Type.
  intros Huniq. unfold entryBaseNames.
  pose proof (NoDup_map_to_list (files fs)) as Hnd.
  assert (∀ kv, kv ∈ map_to_list (files fs) →
                files fs !! kv.1 = Some kv.2) as Hin.
  { intros [k v] H. by apply elem_of_map_to_list in H. }
  induction (map_to_list (files fs)) as [|[k v] l IH]; simpl; [constructor|].
  apply NoDup_cons in Hnd as [Hk Hnd].
  assert (NoDup (omap (λ kv : string * string, profileBaseName dir kv.1) l))
    as IH'.
  { apply IH; [done|]. intros kv Hkv. apply Hin. by right. }
  destruct (profileBaseName dir k) as [n|] eqn:Hn; [|done].
  apply NoDup_cons. split; [|done].
  intros ([k' v'] & Hkv' & Hn')%list_elem_of_omap. simpl in Hn'.
  apply profileBaseName_Some in Hn as (e1 & He1 & -> & _).
  apply profileBaseName_Some in Hn' as (e2 & He2 & -> & _).
  pose proof (Hin (_, v) ltac:(by left)) as H1.
  pose proof (Hin (_, v') ltac:(by right)) as H2. simpl in H1, H2.
  assert (e1 = e2) as <-.
  { apply (Huniq n); [done..| |]; apply QFile_exists_true; by eauto. }
  assert (v' = v) as -> by congruence. done.
Qed.

Lemma fold_add_new_spec (l names : list string) :
  let result := fold_left
    (λ names profileName,
       if bool_decide (profileName ∈ names) then names
       else names ++ [profileName]) l names in
  (NoDup names → NoDup result)
  ∧ ∀ n, n ∈ result ↔ n ∈ names ∨ n ∈ l.
Proof using Type.
  revert names. induction l as [|x l IH]; intros names; simpl.
  - split; [done|]. intros n. rewrite elem_of_nil. clear. tauto.
  - destruct (IH (if bool_decide (x ∈ names) then names else names ++ [x]))
      as [Hnd Hiff].
    split.
    + intros Hnames. apply Hnd. case_bool_decide; [done|].
      apply NoDup_app. split; [done|]. split; [|apply NoDup_singleton].
      intros y Hy ->%list_elem_of_singleton. done.
    + intros n. rewrite Hiff, elem_of_cons.
      case_bool_decide as Hx.
      * split; [clear; tauto|]. intros [?|[->|?]]; auto.
      * rewrite elem_of_app, list_elem_of_singleton. clear. tauto.
Qed.

(** X20. [profileNames] lists a name exactly when a visible file of that
    base name, with the extension [.xml] in any case, lies directly in the
    directory of the type under the primary or under the secondary root.
    The names of the secondary root are added once, and only if they are
    not yet listed; the names of the primary root are taken as the
    directory gives them.  So no name is listed twice, provided that the
    primary directory does not hold two files of one base name whose
    extensions differ in case. *)
Theorem profileNames_spec (fs : FileSystem) (aType : string) :
  let fileIn (root n ext : string) : Prop :=
    QFile_exists fs
      (root +:+ separator +:+ aType +:+ separator +:+ n +:+ ext) = true in
  (∀ n, n ∈ profileNames fs aType ↔
      hasSeparator n = false
      ∧ isDotFile (n +:+ FORMAT_EXT) = false
      ∧ ∃ ext, sameNoCase FORMAT_EXT ext = true
               ∧ (fileIn iPrimaryPath n ext ∨ fileIn iSecondaryPath n ext))
  ∧ ((∀ n e1 e2,
        sameNoCase FORMAT_EXT e1 = true → sameNoCase FORMAT_EXT e2 = true →
        fileIn iPrimaryPath n e1 → fileIn iPrimaryPath n e2 → e1 = e2) →
     NoDup (profileNames fs aType)).
Proof using Type.
  intros fileIn. unfold profileNames.
  destruct (fold_add_new_spec
              (entryBaseNames fs (iSecondaryPath +:+ separator +:+ aType))
              (entryBaseNames fs (iPrimaryPath +:+ separator +:+ aType)))
    as [Hnd Hiff].
  split.
  - intros n. rewrite Hiff, !elem_of_entryBaseNames. unfold fileIn.
    setoid_rewrite append_assoc. setoid_rewrite append_assoc. split.
    + intros [(? & ? & e & ? & ?)|(? & ? & e & ? & ?)]; by eauto 10.
    + intros (? & ? & e & ? & [?|?]); [left|right]; by eauto 10.
  - intros Huniq. apply Hnd, NoDup_entryBaseNames.
    intros n e1 e2 He1 He2 H1 H2. rewrite !append_assoc in H1, H2.
    by apply (Huniq n).
Qed.

(** *** The log of a profile is filed under the name it carries *)

Lemma logFilePath_inj (aType a b : string) :
  logFilePath aType a = logFilePath aType b → a = b.
Proof using Type.
  unfold logFilePath. intros Heq.
  do 6 apply String.app_inj in Heq.
  by apply (append_inj_r a b (LOG_EXT +:+ FORMAT_EXT)).
Qed.

(** X15. Round trip through the log store.  [saveSyncResults] appends the
    results to the log that [loadLog] finds for the name, or to a new log
    of that name, and [saveLog] files the result under the name that the
    log itself carries.  If that file can be written and read and the
    codec gives the log back, [saveSyncResults] returns true and [loadLog]
    by the log's own name returns the longer log.  If the stored log
    carries another name than the one asked for (as after [rename], which
    moves the log file as it is), the log file of the name asked for is
    not touched, and [loadLog] by that name returns what it returned
    before. *)
Theorem saveSyncResults_then_loadLog (fs : FileSystem) (aProfileName : string)
    (aResults : SyncResults) (root : QDomElement) :
  let old := default (newSyncLog aProfileName) (loadLog fs aProfileName) in
  let new := addResults aResults old in
  let saved := (saveSyncResults fs aProfileName aResults).1 in
  logToXml new = Some root →
  createSyncLog <$> setContent (toString root) = Some new →
  isLocked fs (logFilePath TYPE_SYNC (profileName old)) = false →
  isUnreadable fs (logFilePath TYPE_SYNC (profileName old)) = false →
  (saveSyncResults fs aProfileName aResults).2 = true
  ∧ files saved !! logFilePath TYPE_SYNC (profileName old)
    = Some (toString root)
  ∧ loadLog saved (profileName old) = Some new
  ∧ (profileName old ≠ aProfileName →
     loadLog saved aProfileName = loadLog fs aProfileName).
Proof using Type.
  intros old new saved Hroot Hparse Hlock Hread. unfold saved.
  unfold saveSyncResults.
  assert (match loadLog fs aProfileName with
          | Some l => l
          | None => newSyncLog aProfileName
          end = old) as -> by by unfold old; destruct (loadLog fs aProfileName).
  fold new. unfold saveLog.
  assert (profileName new = profileName old) as -> by done.
  rewrite Hlock, Hroot. simpl.
  split; [done|]. split; [by rewrite lookup_insert_eq|]. split.
  - unfold loadLog, QFile_exists, isUnreadable in *; simpl.
    rewrite lookup_insert_eq. simpl. rewrite Hread.
    destruct (setContent (toString root)) as [doc|]; [|done].
    simpl in Hparse. congruence.
  - intros Hname.
    assert (logFilePath TYPE_SYNC (profileName old)
            ≠ logFilePath TYPE_SYNC aProfileName) as Hne
      by (intros Heq; by apply logFilePath_inj in Heq).
    unfold loadLog, QFile_exists, isUnreadable; simpl.
    by rewrite !lookup_insert_ne.
Qed.

(** *** Loading twice *)

Lemma load_loadAt (fs : FileSystem) (aName aType : string) :
  load fs aName aType = loadAt fs (findProfileFile fs aName aType).
Proof using Type. done. Qed.

Lemma setFiles_setFiles (m m' : gmap string string) (fs : FileSystem) :
  setFiles m (setFiles m' fs) = setFiles m fs.
Proof using Type. done. Qed.

(** Restoring a second time changes nothing. *)
Lemma restoreBackupIfFound_idempotent (fs : FileSystem) (path : string) :
  let bak := path +:+ BACKUP_EXT in
  restoreBackupIfFound (restoreBackupIfFound fs path bak) path bak
  = restoreBackupIfFound fs path bak.
Proof using Type.
  intros bak. pose proof (backup_path_ne path) as Hne. fold bak in Hne.
  unfold restoreBackupIfFound at 2.
  destruct (QFile_exists fs bak) eqn:Hbak;
    [|unfold restoreBackupIfFound; by rewrite Hbak].
  apply QFile_exists_true in Hbak as [cb Hcb].
  destruct (parseFile fs bak) as [doc|] eqn:Hparse.
  - assert (∀ fs', files fs' !! bak = Some cb → unreadable fs' = unreadable fs →
              parseFile fs' bak = Some doc) as Hparse'.
    { intros fs' Hc Hu. unfold parseFile, isUnreadable in *.
      by rewrite Hc, Hu, <- Hparse, Hcb. }
    assert (isUnreadable fs bak = false) as Hub.
    { unfold parseFile in Hparse. rewrite Hcb in Hparse.
      by destruct (isUnreadable fs bak). }
    destruct (isLocked fs path) eqn:Hlp.
    + assert ((QFile_copy (QFile_remove fs path).1 bak path).1 = fs) as ->.
      { unfold QFile_remove. rewrite Hlp, andb_false_r. simpl.
        unfold QFile_copy. rewrite Hcb, Hlp, !orb_true_r. done. }
      unfold restoreBackupIfFound, QFile_exists. rewrite Hcb, Hparse.
      unfold QFile_remove. rewrite Hlp, andb_false_r. simpl.
      unfold QFile_copy. by rewrite Hcb, Hlp, !orb_true_r.
    + assert (∀ fs', files fs' !! bak = Some cb → locked fs' = locked fs →
                unreadable fs' = unreadable fs →
                (QFile_copy (QFile_remove fs' path).1 bak path).1
                = setFiles (<[path := cb]> (files fs')) fs') as Hrestore.
      { intros fs' Hc Hl Hu.
        assert (isLocked fs' path = false) as Hlp'
          by (unfold isLocked in *; by rewrite Hl).
        assert (isUnreadable fs' bak = false) as Hub'
          by (unfold isUnreadable in *; by rewrite Hu).
        unfold QFile_remove, QFile_exists. rewrite Hlp'.
        destruct (files fs' !! path) as [old|] eqn:Hold; simpl.
        - unfold QFile_copy, QFile_exists, isUnreadable, isLocked in *; simpl.
          rewrite lookup_delete_ne, Hc, Hub', lookup_delete_eq, Hlp' by done.
          simpl. unfold setFiles; simpl. f_equal. by rewrite insert_delete_eq.
        - unfold QFile_copy, QFile_exists. by rewrite Hc, Hub', Hold, Hlp'. }
      rewrite (Hrestore fs) by done.
      unfold restoreBackupIfFound, QFile_exists; simpl.
      rewrite lookup_insert_ne, Hcb by done.
      assert (files (setFiles (<[path := cb]> (files fs)) fs) !! bak = Some cb)
        as Hcb' by (simpl; by rewrite lookup_insert_ne).
      rewrite (Hparse' _ Hcb' eq_refl), (Hrestore _ Hcb' eq_refl eq_refl).
      simpl. rewrite Hparse, (Hrestore fs Hcb eq_refl eq_refl).
      by rewrite setFiles_setFiles, insert_insert_eq.
  - destruct (isLocked fs bak) eqn:Hlb.
    + assert ((QFile_remove fs bak).1 = fs) as ->.
      { unfold QFile_remove. by rewrite Hlb, andb_false_r. }
      unfold restoreBackupIfFound, QFile_exists. rewrite Hcb, Hparse.
      unfold QFile_remove. by rewrite Hlb, andb_false_r.
    + assert ((QFile_remove fs bak).1 = setFiles (delete bak (files fs)) fs) as ->.
      { unfold QFile_remove, QFile_exists. by rewrite Hcb, Hlb. }
      unfold restoreBackupIfFound, QFile_exists; simpl.
      rewrite lookup_delete_eq, Hcb, Hparse.
      unfold QFile_remove, QFile_exists. by rewrite Hcb, Hlb.
Qed.

Lemma loadAt_idempotent (fs : FileSystem) (path : string) :
  loadAt (loadAt fs path).1 path = loadAt fs path.
Proof using Type.
  pose proof (backup_path_ne path) as Hne.
  pose proof (restoreBackupIfFound_idempotent fs path) as Hidem.
  simpl in Hidem. unfold loadAt at 2 3.
  set (fs1 := restoreBackupIfFound fs path (path +:+ BACKUP_EXT)) in *.
  destruct (parseFile fs1 path) as [doc|] eqn:Hparse; simpl.
  - destruct (QFile_exists fs1 (path +:+ BACKUP_EXT)) eqn:Hbak.
    + unfold QFile_remove. rewrite Hbak. simpl.
      destruct (isLocked fs1 (path +:+ BACKUP_EXT)) eqn:Hlb; simpl.
      * unfold loadAt. rewrite Hidem. fold fs1. rewrite Hparse, Hbak.
        unfold QFile_remove. by rewrite Hbak, Hlb.
      * unfold loadAt.
        assert (QFile_exists
                  (setFiles (delete (path +:+ BACKUP_EXT) (files fs1)) fs1)
                  (path +:+ BACKUP_EXT) = false) as Hgone.
        { unfold QFile_exists; simpl. by rewrite lookup_delete_eq. }
        assert (restoreBackupIfFound
                  (setFiles (delete (path +:+ BACKUP_EXT) (files fs1)) fs1)
                  path (path +:+ BACKUP_EXT)
                = setFiles (delete (path +:+ BACKUP_EXT) (files fs1)) fs1) as ->
          by (unfold restoreBackupIfFound; by rewrite Hgone).
        assert (parseFile
                  (setFiles (delete (path +:+ BACKUP_EXT) (files fs1)) fs1) path
                = Some doc) as ->.
        { rewrite <- Hparse. unfold parseFile, isUnreadable; simpl.
          by rewrite lookup_delete_ne. }
        by rewrite Hgone.
    + unfold loadAt. rewrite Hidem. fold fs1. by rewrite Hparse, Hbak.
  - unfold loadAt. rewrite Hidem. fold fs1. by rewrite Hparse.
Qed.

(** A profile file is not a backup file. *)
Lemma xml_ne_bak (a b : string) : a +:+ FORMAT_EXT ≠ b +:+ BACKUP_EXT.
Proof using Type.
  intros Heq. apply (f_equal String.rev) in Heq.
  rewrite !rev_append in Heq. discriminate Heq.
Qed.

Lemma profileFilePath_ne_bak (root aType aName b : string) :
  profileFilePath root aType aName ≠ b +:+ BACKUP_EXT.
Proof using Type.
  unfold profileFilePath.
  rewrite <- !append_assoc. apply xml_ne_bak.
Qed.

(** [load] does not make the profile file disappear. *)
Lemma loadAt_keeps_file (fs : FileSystem) (path : string) :
  QFile_exists fs path = true → QFile_exists (loadAt fs path).1 path = true.
Proof using Type.
  intros Hex. pose proof (backup_path_ne path) as Hne.
  assert (QFile_exists (restoreBackupIfFound fs path (path +:+ BACKUP_EXT)) path
          = true) as Hres.
  { unfold restoreBackupIfFound.
    destruct (QFile_exists fs (path +:+ BACKUP_EXT)) eqn:Hbak; [|done].
    apply QFile_exists_true in Hbak as [cb Hcb].
    destruct (parseFile fs (path +:+ BACKUP_EXT)) as [doc|] eqn:Hparse.
    - assert (isUnreadable fs (path +:+ BACKUP_EXT) = false) as Hub.
      { unfold parseFile in Hparse. rewrite Hcb in Hparse.
        by destruct (isUnreadable fs _). }
      unfold QFile_remove. rewrite Hex. simpl.
      destruct (isLocked fs path) eqn:Hlp; simpl.
      + unfold QFile_copy. by rewrite Hcb, Hex, orb_true_r.
      + unfold QFile_copy, QFile_exists, isUnreadable, isLocked in *; simpl.
        rewrite lookup_delete_ne, Hcb, Hub, lookup_delete_eq, Hlp by done.
        simpl. by rewrite lookup_insert_eq.
    - unfold QFile_exists. rewrite QFile_remove_other by done.
      by apply QFile_exists_true in Hex as [? ->]. }
  unfold loadAt. destruct (parseFile _ path); simpl; [|done].
  destruct (QFile_exists _ (path +:+ BACKUP_EXT)); [|done].
  unfold QFile_exists in *. by rewrite QFile_remove_other.
Qed.

Lemma loadAt_other (fs : FileSystem) (path q : string) :
  q ≠ path → q ≠ path +:+ BACKUP_EXT →
  QFile_exists (loadAt fs path).1 q = QFile_exists fs q.
Proof using Type.
  intros Hp Hb. unfold QFile_exists, loadAt.
  destruct (parseFile _ path); simpl.
  - destruct (QFile_exists _ (path +:+ BACKUP_EXT)).
    + by rewrite QFile_remove_other, restoreBackupIfFound_other.
    + by rewrite restoreBackupIfFound_other.
  - by rewrite restoreBackupIfFound_other.
Qed.

(** [load] does not change which file the name resolves to. *)
Lemma findProfileFile_load (fs : FileSystem) (aName aType : string) :
  findProfileFile (load fs aName aType).1 aName aType
  = findProfileFile fs aName aType.
Proof using Type.
  rewrite load_loadAt. unfold findProfileFile.
  fold (profileFilePath iPrimaryPath aType aName).
  fold (profileFilePath iSecondaryPath aType aName).
  set (primaryPath := profileFilePath iPrimaryPath aType aName).
  set (secondaryPath := profileFilePath iSecondaryPath aType aName).
  assert (∀ path q, q = primaryPath ∨ q = secondaryPath → q ≠ path →
            QFile_exists (loadAt fs path).1 q = QFile_exists fs q) as Hother.
  { intros path q Hq Hne. apply loadAt_other; [done|].
    destruct Hq as [-> | ->]; apply profileFilePath_ne_bak. }
  destruct (QFile_exists fs primaryPath) eqn:Hp.
  - by rewrite loadAt_keeps_file.
  - destruct (QFile_exists fs secondaryPath) eqn:Hs; simpl.
    + assert (primaryPath ≠ secondaryPath) as Hne by congruence.
      rewrite (Hother secondaryPath primaryPath), Hp by auto.
      by rewrite loadAt_keeps_file.
    + destruct (QFile_exists (loadAt fs primaryPath).1 primaryPath) eqn:Hp';
        [done|].
      destruct (decide (secondaryPath = primaryPath)) as [->|Hne].
      * by rewrite Hp'.
      * by rewrite (Hother primaryPath secondaryPath), Hs by auto.
Qed.

(** X4. [load] is idempotent: a second [load] of the same name and type
    returns the same profile and leaves the file system as the first one
    left it.  Whatever had to be restored or cleaned up was dealt with by the
    first. *)
Theorem load_idempotent (fs : FileSystem) (aName aType : string) :
  load (load fs aName aType).1 aName aType = load fs aName aType.
Proof using Type.
  rewrite (load_loadAt (load fs aName aType).1), findProfileFile_load.
  rewrite load_loadAt. apply loadAt_idempotent.
Qed.

End ProfileManager.

(** ** The scenarios, run *)

(** C1. Saving [foo] while [<primary>/sync/foo.xml] exists: the resolver
    finds the current profile file, yet [save] copies nothing to
    [<primary>/sync/foo.xml.bak] before it writes, because it asks the
    resolver for type [foo] and name [sync].  When the write then fails
    there is no backup to restore from. *)
Theorem save_skips_backup :
  findProfileFile primaryRoot secondaryRoot fsFoo "foo" "sync"
    = "/home/.sync/profiles/sync/foo.xml"
  ∧ QFile_exists fsFoo "/home/.sync/profiles/sync/foo.xml" = true
  ∧ findProfileFile primaryRoot secondaryRoot fsFoo
      (type fooUser) (name fooUser) = "/home/.sync/profiles/foo/sync.xml"
  ∧ saveBackup primaryRoot secondaryRoot fsFoo fooUser = fsFoo
  ∧ QFile_exists (saveBackup primaryRoot secondaryRoot fsFoo fooUser)
      "/home/.sync/profiles/sync/foo.xml.bak" = false
  ∧ save Profile Some textOf primaryRoot secondaryRoot fsFooReadOnly fooUser
    = (fsFooReadOnly, false)
  ∧ QFile_exists
      (save Profile Some textOf primaryRoot secondaryRoot fsFooReadOnly fooUser).1
      "/home/.sync/profiles/sync/foo.xml.bak" = false.
Proof. repeat split; vm_compute; reflexivity. Qed.

(** C2. Removing [foo], which has no log file: the primary profile file is
    removed, and [remove] returns false. *)
Theorem remove_without_log :
  QFile_exists fsFoo "/home/.sync/profiles/sync/foo.xml" = true
  ∧ remove Profile docOf id primaryRoot secondaryRoot fsFoo "foo" "sync"
    = (mkFS ∅ ∅ ∅, false)
  ∧ QFile_exists
      (remove Profile docOf id primaryRoot secondaryRoot fsFoo "foo" "sync").1
      "/home/.sync/profiles/sync/foo.xml" = false.
Proof. repeat split; vm_compute; reflexivity. Qed.

(** Scenarios S1 and S2: a system default is read from the secondary
    root; saving writes under the primary root, which then shadows the
    default, and the default stays as it is. *)
Example save_copy_on_write :
  let saved :=
    (save Profile Some textOf primaryRoot secondaryRoot fsDefaults fooUser).1 in
  (load Profile docOf id primaryRoot secondaryRoot fsDefaults "foo" "sync").2
    = Some fooSystem
  ∧ saved = fsLayered
  ∧ (load Profile docOf id primaryRoot secondaryRoot saved "foo" "sync").2
    = Some fooUser
  ∧ profileNames primaryRoot secondaryRoot saved "sync" = ["foo"].
Proof. repeat split; vm_compute; reflexivity. Qed.

(** Scenario S3: [load] restores the profile file from the backup and
    removes the backup. *)
Example load_restores_backup :
  load Profile docOf id primaryRoot secondaryRoot fsCrashed "foo" "sync"
    = (fsFoo, Some fooSystem).
Proof. vm_compute; reflexivity. Qed.

(** Scenario S5: NOT_EQUAL on the key [hidden] matches a profile without
    that key and does not match a profile whose key is [true]. *)
Example search_not_equal :
  let visible := mkCriteria NOT_EQUAL "" "" "hidden" "true" in
  matchProfile (leafProfile "a" "sync" ∅) visible = true
  ∧ matchProfile (leafProfile "b" "sync" {["hidden" := "true"]}) visible = false.
Proof. split; vm_compute; reflexivity. Qed.

(** Scenario S4: after the expansion [svc] carries the key of its file
    and holds [st], which carries the key of its own file; every
    sub-profile and the profile itself are loaded. *)
Example expand_nested :
  let expanded :=
    (expand Profile docOf id primaryRoot secondaryRoot fsNested parent).2 in
  (subProfile expanded "svc" "service" ≫= λ p, key p "endpoint") = Some "http://h"
  ∧ profileId <$> (subProfile expanded "svc" "service" ≫= λ p,
                   iSubProfiles p !! 0) = Some ("st", "storage")
  ∧ (subProfile expanded "st" "storage" ≫= λ p, key p "path") = Some "/data"
  ∧ isLoaded <$> expanded :: allSubProfiles expanded = [true; true; true].
Proof. repeat split; vm_compute; reflexivity. Qed.

(** Scenario S6: the protected profile [keep] stays. *)
Lemma remove_protected_witness :
  remove Profile docOf id primaryRoot secondaryRoot fsKeep "keep" "sync"
    = (fsKeep, false)
  ∧ docOf <$> files fsKeep !! "/home/.sync/profiles/sync/keep.xml"
    = Some (Some keep).
Proof.
  destruct (remove_protected Profile docOf id primaryRoot secondaryRoot
              fsKeep fsKeep "keep" "sync" keep) as (Hremove & _ & _).
  - vm_compute; reflexivity.
  - vm_compute; reflexivity.
  - split; [exact Hremove | vm_compute; reflexivity].
Defined.

(** Overlay precedence: with [foo] in both roots, [load] returns the
    user's profile. *)
Lemma findProfileFile_overlay_witness :
  load Profile docOf id primaryRoot secondaryRoot fsLayered "foo" "sync"
    = (fsLayered, Some fooUser).
Proof.
  destruct (findProfileFile_overlay Profile docOf id primaryRoot secondaryRoot
              fsLayered "foo" "sync") as [_ Hload].
  destruct Hload as [_ Hload]; [vm_compute; reflexivity..|].
  rewrite Hload; vm_compute; reflexivity.
Defined.



(** Scenario S4: [syncProfile] returns [parent] expanded, with a new empty
    log, as no log file is stored. *)
Lemma syncProfile_spec_witness :
  ∃ sp, (syncProfile Profile docOf id logOf primaryRoot secondaryRoot
           fsNested "parent").2 = Some sp
        ∧ isLoaded (base sp) = true
        ∧ log sp = Some (mkSyncLog "parent" []).
Proof.
  destruct (syncProfile_spec Profile docOf id logOf primaryRoot secondaryRoot
              fsNested "parent") as [_ Hsp].
  eexists. split; [vm_compute; reflexivity|].
  edestruct Hsp as (Hloaded & l & Hl & Hlog); [vm_compute; reflexivity|].
  split; [exact Hloaded|]. rewrite Hl. f_equal.
  destruct Hlog as [Hlog|[_ ->]]; [|reflexivity].
  vm_compute in Hlog. discriminate Hlog.
Defined.

(** The reference cycle [a → b → a]: the loop returns, a round does not
    lose entries, and a visit of a loaded sub-profile changes nothing. *)
Lemma expandLoop_terminates_witness :
  (∃ st, expandLoop Profile docOf id primaryRoot secondaryRoot 100 fsCycle cyc
           (allSubPaths cyc) 0 (length (allSubPaths cyc)) = Some st)
  ∧ subCount cyc ≤
      subCount
        (fold_left (expandVisit Profile docOf id primaryRoot secondaryRoot)
           (allSubPaths cyc) (fsCycle, cyc)).2
  ∧ expandVisit Profile docOf id primaryRoot secondaryRoot
      (fsCycle, cycLoaded) [0] = (fsCycle, cycLoaded).
Proof.
  split; [|split].
  - destruct (expandLoop_terminates Profile docOf id primaryRoot secondaryRoot
                fsCycle cyc) as ([st Hst] & _ & _).
    exists st. apply Hst. vm_compute. lia.
  - destruct (expandLoop_terminates Profile docOf id primaryRoot secondaryRoot
                fsCycle cyc) as (_ & Hround & _).
    destruct (Hround 0 0) as (Hle & _ & _); [vm_compute; lia|]. exact Hle.
  - destruct (expandLoop_terminates Profile docOf id primaryRoot secondaryRoot
                fsCycle cycLoaded) as (_ & _ & Hskip).
    apply (Hskip [0] (setLoaded true (leafProfile "a" "service" ∅)));
      reflexivity.
Defined.

(** A type-only query: the four-string form tests the first storage
    only, the criteria form tests every storage. *)
Example type_only_query_first_or_any :
  matchesData twoStorages "" "storage" "path" "" = false
  ∧ matchProfile twoStorages (criterionFor "" "storage" "path" "") = true.
Proof. split; vm_compute; reflexivity. Qed.

(** Loading the user's [foo] leaves the system default alone. *)
Lemma load_frame_witness :
  files (load Profile docOf id primaryRoot secondaryRoot fsLayered
           "foo" "sync").1 !! "/etc/sync/profiles/sync/foo.xml"
  = files fsLayered !! "/etc/sync/profiles/sync/foo.xml".
Proof.
  apply (load_frame Profile docOf id primaryRoot secondaryRoot fsLayered
           "foo" "sync" "/etc/sync/profiles/sync/foo.xml");
    vm_compute; discriminate.
Defined.

(** Scenario S3 again, through the theorem. *)
Lemma load_from_backup_witness :
  load Profile docOf id primaryRoot secondaryRoot fsCrashed "foo" "sync"
    = (fsFoo, Some fooSystem).
Proof.
  etrans.
  - apply (load_from_backup Profile docOf id primaryRoot secondaryRoot
             fsCrashed "foo" "sync" "<foo owner=system>" fooSystem);
      vm_compute; reflexivity.
  - vm_compute; reflexivity.
Defined.

(** The backup [<fo] does not parse: it is deleted and [foo] is read from
    its profile file. *)
Lemma load_drops_garbage_backup_witness :
  load Profile docOf id primaryRoot secondaryRoot fsGarbageBackup "foo" "sync"
    = (fsFoo, Some fooSystem).
Proof.
  etrans.
  - apply (load_drops_garbage_backup Profile docOf id primaryRoot
             secondaryRoot fsGarbageBackup "foo" "sync");
      vm_compute; reflexivity.
  - vm_compute; reflexivity.
Defined.

(** Saving the user's [foo] over the stored one. *)
Lemma save_written_witness :
  (save Profile Some textOf primaryRoot secondaryRoot fsFoo fooUser).2 = true
  ∧ files (save Profile Some textOf primaryRoot secondaryRoot fsFoo fooUser).1
      !! "/home/.sync/profiles/sync/foo.xml" = Some "<foo owner=user>".
Proof.
  destruct (save_written Profile Some textOf primaryRoot secondaryRoot
              fsFoo fooUser) as [Hiff Hdoc].
  split.
  - apply Hiff. split; [by eexists | vm_compute; reflexivity].
  - destruct (Hdoc fooUser) as [Hfile _];
      [reflexivity | vm_compute; reflexivity | exact Hfile].
Defined.

(** A save of the user's [foo] leaves the system default alone, and a
    failed save leaves the profile file as it was. *)
Lemma save_frame_witness :
  files (save Profile Some textOf primaryRoot secondaryRoot fsLayered fooUser).1
    !! "/etc/sync/profiles/sync/foo.xml"
  = files fsLayered !! "/etc/sync/profiles/sync/foo.xml"
  ∧ files (save Profile Some textOf primaryRoot secondaryRoot
             fsFooReadOnly fooUser).1 !! "/home/.sync/profiles/sync/foo.xml"
    = files fsFooReadOnly !! "/home/.sync/profiles/sync/foo.xml".
Proof.
  split.
  - destruct (save_frame Profile Some textOf primaryRoot secondaryRoot
                fsLayered fooUser) as [Hother _].
    apply Hother; vm_compute; discriminate.
  - destruct (save_frame Profile Some textOf primaryRoot secondaryRoot
                fsFooReadOnly fooUser) as [_ Hfailed].
    apply Hfailed. vm_compute; reflexivity.
Defined.

(** Scenario S2: what was saved is what is loaded. *)
Lemma save_then_load_witness :
  let saved :=
    (save Profile Some textOf primaryRoot secondaryRoot fsDefaults fooUser).1 in
  load Profile docOf id primaryRoot secondaryRoot saved "foo" "sync"
    = (saved, Some fooUser).
Proof.
  destruct (save_then_load Profile docOf id Some textOf primaryRoot
              secondaryRoot fsDefaults fooUser fooUser) as [_ Hload];
    [vm_compute; reflexivity..|].
  exact Hload.
Defined.

(** The failed rename of the never-synchronised [foo] changes nothing. *)
Lemma rename_all_or_nothing_witness :
  (rename primaryRoot fsFoo "foo" "bar").1 = fsFoo.
Proof.
  apply (rename_all_or_nothing primaryRoot fsFoo "foo" "bar").
  vm_compute; reflexivity.
Defined.

(** Renaming the synchronised [foo] to [bar]. *)
Lemma rename_moves_witness :
  let renamed := (rename primaryRoot fsSynced "foo" "bar").1 in
  files renamed !! "/home/.sync/profiles/sync/bar.xml"
    = Some "<foo owner=system>"
  ∧ files renamed !! "/home/.sync/profiles/sync/logs/bar.log.xml"
    = Some "<log foo *>"
  ∧ files renamed !! "/home/.sync/profiles/sync/foo.xml" = None
  ∧ files renamed !! "/home/.sync/profiles/sync/logs/foo.log.xml" = None.
Proof.
  destruct (rename_moves primaryRoot fsSynced
              (rename primaryRoot fsSynced "foo" "bar").1 "foo" "bar")
    as (Hprofile & Hlog & _ & _ & Hold & Holdlog & _);
    [vm_compute; reflexivity..|].
  intros renamed. split; [|split; [|split]].
  - etrans; [exact Hprofile | vm_compute; reflexivity].
  - etrans; [exact Hlog | vm_compute; reflexivity].
  - exact Hold.
  - exact Holdlog.
Defined.

(** Removing the synchronised [foo]. *)
Lemma remove_deletes_witness :
  let removed :=
    (remove Profile docOf id primaryRoot secondaryRoot fsSynced
       "foo" "sync").1 in
  QFile_exists removed "/home/.sync/profiles/sync/foo.xml" = false
  ∧ QFile_exists removed "/home/.sync/profiles/sync/logs/foo.log.xml" = false.
Proof.
  destruct (remove_deletes Profile docOf id primaryRoot secondaryRoot fsSynced
              (remove Profile docOf id primaryRoot secondaryRoot fsSynced
                 "foo" "sync").1 "foo" "sync")
    as (_ & Hprofile & Hlog); [vm_compute; reflexivity|].
  split; [exact Hprofile | exact Hlog].
Defined.

(** A system default cannot be removed. *)
Lemma remove_needs_primary_file_witness :
  remove Profile docOf id primaryRoot secondaryRoot fsDefaults "foo" "sync"
    = (fsDefaults, false).
Proof.
  apply (remove_needs_primary_file Profile docOf id primaryRoot secondaryRoot
           fsDefaults "foo" "sync"); vm_compute; reflexivity.
Defined.

(** A query on a key of the profile itself: both forms agree. *)
Lemma getSyncProfilesByDataFor_criteria_witness :
  getSyncProfilesByDataFor Profile docOf id logOf primaryRoot secondaryRoot
    fsLayered "" "" "owner" "user"
  = getSyncProfilesByData Profile docOf id logOf primaryRoot secondaryRoot
      fsLayered [criterionFor "" "" "owner" "user"].
Proof.
  apply (getSyncProfilesByDataFor_criteria Profile docOf id logOf primaryRoot
           secondaryRoot fsLayered "" "" "owner" "user").
  right; reflexivity.
Defined.

(** The profile [online] supports the enabled storage [hcalendar]. *)
Lemma getSyncProfilesByStorage_spec_witness :
  ∃ P, P ∈ (getSyncProfilesByStorage Profile onlineDocOf id logOf primaryRoot
              secondaryRoot fsOnline "hcalendar" true).2
       ∧ name (base P) = "online".
Proof.
  eexists. split.
  - apply (getSyncProfilesByStorage_spec Profile onlineDocOf id logOf
             primaryRoot secondaryRoot fsOnline "hcalendar" true);
      [discriminate|].
    split; [vm_compute; apply list_elem_of_here|].
    split; [vm_compute; discriminate|].
    split; [vm_compute; reflexivity|].
    split.
    + exists "web". eexists. split; [vm_compute; apply list_elem_of_here|].
      split; vm_compute; reflexivity.
    + eexists. split; [vm_compute; reflexivity|]. intros _.
      vm_compute; reflexivity.
  - vm_compute; reflexivity.
Defined.

(** Writing the log of [foo]. *)
Lemma saveLog_spec_witness :
  let aLog := mkSyncLog "foo" [mkResults 1 0] in
  (saveLog SyncLog logTextOf primaryRoot Some fsFoo aLog).2 = true
  ∧ files (saveLog SyncLog logTextOf primaryRoot Some fsFoo aLog).1
      !! "/home/.sync/profiles/sync/logs/foo.log.xml" = Some "<log foo *>"
  ∧ files (saveLog SyncLog logTextOf primaryRoot Some fsFoo aLog).1
      !! "/home/.sync/profiles/sync/foo.xml" = Some "<foo owner=system>".
Proof.
  intros aLog.
  destruct (saveLog_spec SyncLog logTextOf primaryRoot Some fsFoo aLog)
    as (Hiff & Hroot & _ & _ & Hother).
  split; [|split].
  - apply Hiff. split; [vm_compute; reflexivity | by eexists].
  - etrans; [apply (Hroot aLog); vm_compute; reflexivity|].
    vm_compute; reflexivity.
  - etrans; [apply Hother; vm_compute; discriminate|].
    vm_compute; reflexivity.
Defined.

(** The results of a second synchronisation of [foo] are appended to its
    log.  After the rename of [foo] to [bar] the log file of [bar] still
    holds the log named [foo]: the results saved for [bar] go to the log
    file of [foo], and the log of [bar] stays as it was. *)
Lemma saveSyncResults_then_loadLog_witness :
  let log1 := mkSyncLog "foo" [mkResults 1 0] in
  let log2 := mkSyncLog "foo" [mkResults 1 0; mkResults 2 0] in
  let saved :=
    (saveSyncResults SyncLog logDocOf id logTextOf primaryRoot Some fsSynced
       "foo" (mkResults 2 0)).1 in
  let renamed := (rename primaryRoot fsSynced "foo" "bar").1 in
  let savedBar :=
    (saveSyncResults SyncLog logDocOf id logTextOf primaryRoot Some renamed
       "bar" (mkResults 2 0)).1 in
  loadLog SyncLog logDocOf id primaryRoot saved "foo" = Some log2
  ∧ loadLog SyncLog logDocOf id primaryRoot savedBar "bar" = Some log1
  ∧ loadLog SyncLog logDocOf id primaryRoot savedBar "foo" = Some log2.
Proof.
  intros log1 log2 saved renamed savedBar. split; [|split].
  - destruct (saveSyncResults_then_loadLog SyncLog logDocOf id logTextOf
                primaryRoot Some fsSynced "foo" (mkResults 2 0) log2)
      as (_ & _ & Hload & _); [vm_compute; reflexivity..|].
    exact Hload.
  - destruct (saveSyncResults_then_loadLog SyncLog logDocOf id logTextOf
                primaryRoot Some renamed "bar" (mkResults 2 0) log2)
      as (_ & _ & _ & Hstale); [vm_compute; reflexivity..|].
    etrans; [apply Hstale; vm_compute; discriminate|].
    vm_compute; reflexivity.
  - destruct (saveSyncResults_then_loadLog SyncLog logDocOf id logTextOf
                primaryRoot Some renamed "bar" (mkResults 2 0) log2)
      as (_ & _ & Hload & _); [vm_compute; reflexivity..|].
    exact Hload.
Defined.

(** A text that does not parse adds nothing; the text of the user's [foo]
    adds it under the primary root. *)
Lemma addProfile_spec_witness :
  addProfile Profile id Some textOf primaryRoot secondaryRoot docOf
    fsDefaults "<foo" = (fsDefaults, "")
  ∧ (addProfile Profile id Some textOf primaryRoot secondaryRoot docOf
       fsDefaults "<foo owner=user>").2 = "foo"
  ∧ files (addProfile Profile id Some textOf primaryRoot secondaryRoot docOf
             fsDefaults "<foo owner=user>").1
      !! "/home/.sync/profiles/sync/foo.xml" = Some "<foo owner=user>".
Proof.
  split.
  - apply (addProfile_spec Profile id Some textOf primaryRoot secondaryRoot
             docOf fsDefaults "<foo").
    right. vm_compute; reflexivity.
  - destruct (addProfile_spec Profile id Some textOf primaryRoot secondaryRoot
                docOf fsDefaults "<foo owner=user>") as [_ Hadd].
    destruct (Hadd fooUser) as (Hname & _ & _ & Hfile);
      [discriminate | vm_compute; reflexivity |].
    split; [exact Hname|].
    apply (Hfile fooUser); vm_compute; reflexivity.
Defined.

(** Scenario S4: every profile of the expanded [parent] is loaded. *)
Lemma expand_all_loaded_witness :
  let expanded :=
    (expand Profile docOf id primaryRoot secondaryRoot fsNested parent).2 in
  Forall (λ v, isLoaded v = true) (expanded :: allSubProfiles expanded).
Proof.
  apply (expand_all_loaded Profile docOf id primaryRoot secondaryRoot
           fsNested parent).
  reflexivity.
Defined.

(** Scenario S4: [parent], as [allSyncProfiles] returns it. *)
Lemma allSyncProfiles_invariant_witness :
  ∃ sp, sp ∈ (allSyncProfiles Profile docOf id logOf primaryRoot secondaryRoot
                fsNested).2
        ∧ name (base sp) = "parent"
        ∧ isLoaded (base sp) = true
        ∧ Forall (λ v, isLoaded v = true) (allSubProfiles (base sp)).
Proof.
  assert (∃ sp, sp ∈ (allSyncProfiles Profile docOf id logOf primaryRoot
                        secondaryRoot fsNested).2
                ∧ name (base sp) = "parent") as (sp & Hin & Hname).
  { eexists. split; [vm_compute; apply list_elem_of_here|].
    vm_compute; reflexivity. }
  exists sp.
  destruct (allSyncProfiles_invariant Profile docOf id logOf primaryRoot
              secondaryRoot fsNested sp Hin) as (_ & Hloaded & _ & Hsubs).
  repeat split; [exact Hin | exact Hname | exact Hloaded |].
  apply Hsubs. intros text doc Hdoc.
  apply find_some in Hdoc as [Hdoc _]. simpl in Hdoc.
  repeat (destruct Hdoc as [<-|Hdoc]; [reflexivity|]). destruct Hdoc.
Defined.

(** The two roots of the scenarios. *)
Lemma chopSeparator_spec_witness :
  chopSeparator "/home/.sync/profiles/" = "/home/.sync/profiles"
  ∧ chopSeparator "/etc/sync/profiles" = "/etc/sync/profiles".
Proof.
  split.
  - exact (proj1 (chopSeparator_spec "/home/.sync/profiles")).
  - apply (proj2 (chopSeparator_spec "/etc/sync/profiles")).
    intros r Hr. apply (f_equal String.rev) in Hr.
    rewrite rev_append in Hr. discriminate Hr.
Defined.

(** With [foo] in both roots, [foo] is listed once. *)
Lemma profileNames_spec_witness :
  "foo" ∈ profileNames primaryRoot secondaryRoot fsLayered "sync"
  ∧ NoDup (profileNames primaryRoot secondaryRoot fsLayered "sync").
Proof.
  destruct (profileNames_spec primaryRoot secondaryRoot fsLayered "sync")
    as [Hiff Hnd].
  split.
  - apply Hiff. split; [vm_compute; reflexivity|].
    split; [vm_compute; reflexivity|].
    exists ".xml". split; [vm_compute; reflexivity|].
    left. vm_compute; reflexivity.
  - apply Hnd. intros n e1 e2 _ _ H1 H2.
    assert (∀ e, QFile_exists fsLayered
                   ("/home/.sync/profiles/sync/" +:+ n +:+ e) = true →
                 n +:+ e = "foo.xml") as Hfoo.
    { intros e [c Hc]%QFile_exists_true.
      apply (elem_of_list_to_map_2 (M := gmap string)) in Hc.
      rewrite !elem_of_cons, elem_of_nil in Hc.
      destruct Hc as [Hc|[Hc|[]]];
        first [discriminate Hc | injection Hc as Hc _; exact Hc]. }
    apply Hfoo in H1, H2. rewrite <- H2 in H1.
    by apply String.app_inj in H1.
Defined.

(** The name filter does not look at the case of the extension: [a.xml]
    and [a.XML] give the name [a] twice, and [FOO.XML] is listed as
    [FOO]. *)
Example profileNames_any_case :
  profileNames primaryRoot secondaryRoot fsAnyCase "sync" = ["a"; "a"; "FOO"].
Proof. vm_compute; reflexivity. Qed.

End Buteo.
